(** * Taiwan stock screener: the screening pipeline of [app.py]

    A shallow embedding of [calculate_indicators], [check_strategies],
    [process_stock] and the scan loop, followed by the properties proved
    about them.

    Modelling choices.
    - A pandas cell is [option Qc]: [None] is NaN (the "undefined" marker),
      [Some q] a number, a rational in lowest terms.  Arithmetic on numbers
      is exact (no rounding, no overflow); NaN propagates through arithmetic
      and makes every comparison false, as in Python.  The program computes
      in float64: there a sum or a square of numbers near 1.8e308 is an
      infinity, and arithmetic on infinities gives NaN.  The exact numbers
      of the model stand for the floats of the program, up to rounding,
      only while no intermediate result overflows; [ModeratePriceSeries]
      bounds the closes so that none does.
    - A [DataFrame] is its index together with a dictionary from column
      names to columns.  [df['X'] = s] is an insertion in that dictionary.
      Column labels are plain names; a frame whose column labels have two
      levels (price field and ticker) is not a value of this type.
    - Python exceptions are values of [exn]; code that may raise lives in
      the [result] monad.
    - numpy's square root and the price provider ([yf.download]) are
      parameters of the development. *)

From Stdlib Require Import QArith Qcanon.
From stdpp Require Import gmap strings list sorting.

(** ** Cells and their arithmetic *)

Abbreviation cell := (option Qc).
Definition NaN : cell := None.

(** [a > b], [a <= b] on Python floats: false as soon as one side is NaN. *)
Definition cell_gt (a b : cell) : bool :=
  match a, b with
  | Some x, Some y => bool_decide (y < x)%Qc
  | _, _ => false
  end.

Definition cell_le (a b : cell) : bool :=
  match a, b with
  | Some x, Some y => bool_decide (x ≤ y)%Qc
  | _, _ => false
  end.

Definition cell_lift2 (f : Qc → Qc → Qc) (a b : cell) : cell :=
  match a, b with
  | Some x, Some y => Some (f x y)
  | _, _ => NaN
  end.

Definition cell_add : cell → cell → cell := cell_lift2 Qcplus.
Definition cell_sub : cell → cell → cell := cell_lift2 Qcminus.
Definition cell_mul : cell → cell → cell := cell_lift2 Qcmult.

(** ** Series operations of pandas used by the program *)

Abbreviation Series := (list cell).

(** Element-wise arithmetic on two series that share an index. *)
Definition series_add (a b : Series) : Series := zip_with cell_add a b.
Definition series_sub (a b : Series) : Series := zip_with cell_sub a b.
Definition scalar_mul (k : Qc) (s : Series) : Series := cell_mul (Some k) <$> s.

(** The non-NaN values of a window. *)
Definition observations (xs : list cell) : list Qc := omap id xs.

(** [xs[max(0, i+1-w) : i+1]]: the window of width [w] that ends at [i]. *)
Definition window_at (w i : nat) (xs : Series) : list cell :=
  take (S i - (S i - w)) (drop (S i - w) xs).

(** [s.rolling(window=w)]: [min_periods] defaults to [w]; a window with
    fewer than [w] observations yields NaN. *)
Definition rolling (w : nat) (agg : list Qc → cell) (xs : Series) : Series :=
  (λ i, let obs := observations (window_at w i xs) in
        if (w <=? length obs)%nat then agg obs else NaN)
    <$> seq 0 (length xs).

Definition Qsum (xs : list Qc) : Qc := foldr Qcplus 0%Qc xs.
Definition Qlen (xs : list Qc) : Qc := Qc_of_Z (Z.of_nat (length xs)).
Definition Qmean (xs : list Qc) : Qc := (Qsum xs / Qlen xs)%Qc.

Definition agg_mean (obs : list Qc) : cell := Some (Qmean obs).

Section Pandas.
(** [numpy.sqrt] on non-negative numbers. *)
Variable sqrt : Qc → Qc.

(** Sample standard deviation ([ddof = 1]), NaN on fewer than two
    observations. *)
Definition agg_std (obs : list Qc) : cell :=
  if (length obs <=? 1)%nat then NaN
  else
    let m := Qmean obs in
    let ss := Qsum ((λ x, (x - m) * (x - m))%Qc <$> obs) in
    Some (sqrt (ss / (Qlen obs - 1))%Qc).

Definition rolling_mean (w : nat) (xs : Series) : Series := rolling w agg_mean xs.
Definition rolling_std (w : nat) (xs : Series) : Series := rolling w agg_std xs.
End Pandas.

(** [s.ewm(span=n, adjust=False).mean()].  The state is the running
    average and the weight [old_wt] of everything seen so far; a NaN
    observation carries the average forward and lets the old weight decay;
    leading NaNs stay NaN ([min_periods = 0], [ignore_na = False]). *)
Definition ewm_alpha (span : Z) : Qc := (2 / (Qc_of_Z span + 1))%Qc.

Definition ewm_step (alpha : Qc) (st : cell * Qc) (cur : cell) : cell * Qc :=
  let '(weighted, old_wt) := st in
  match weighted with
  | Some w =>
      let old_wt := (old_wt * (1 - alpha))%Qc in
      match cur with
      | Some c => (Some ((old_wt * w + alpha * c) / (old_wt + alpha))%Qc, 1%Qc)
      | None => (Some w, old_wt)
      end
  | None => (cur, old_wt)
  end.

Fixpoint ewm_from (alpha : Qc) (st : cell * Qc) (xs : Series) : Series :=
  match xs with
  | [] => []
  | cur :: rest =>
      let st' := ewm_step alpha st cur in
      st'.1 :: ewm_from alpha st' rest
  end.

Definition ewm_mean (span : Z) (xs : Series) : Series :=
  match xs with
  | [] => []
  | x0 :: rest => x0 :: ewm_from (ewm_alpha span) (x0, 1%Qc) rest
  end.

(** ** Exceptions *)

Inductive exn : Type :=
  | KeyError (key : string)
  | IndexError
  | AttributeError
  | ProviderError (msg : string).

Inductive result (A : Type) : Type :=
  | Ok (a : A)
  | Raise (e : exn).
Arguments Ok {A} a.
Arguments Raise {A} e.

Global Instance result_ret : MRet result := λ A a, Ok a.
Global Instance result_bind : MBind result := λ A B f m,
  match m with
  | Ok a => f a
  | Raise e => Raise e
  end.

(** [try: body  except: handler] with a bare [except], which catches
    every exception. *)
Definition try_except {A} (body : result A) (handler : result A) : result A :=
  match body with
  | Ok a => Ok a
  | Raise _ => handler
  end.

(** ** Data frames *)

Record DataFrame : Type := mkDF {
  index : list Z;                       (* bar timestamps *)
  columns : gmap string Series
}.

(** [len(df)] *)
Definition len (df : DataFrame) : nat := length (index df).

(** [df.empty]: some axis has length 0. *)
Definition empty (df : DataFrame) : bool :=
  (len df =? 0)%nat || bool_decide (columns df = ∅).

(** [df[name]] *)
Definition get_col (df : DataFrame) (name : string) : result Series :=
  match columns df !! name with
  | Some s => Ok s
  | None => Raise (KeyError name)
  end.

(** [df[name] = s] *)
Definition set_col (name : string) (s : Series) (df : DataFrame) : DataFrame :=
  mkDF (index df) (<[name := s]> (columns df)).

(** A row of the frame, as [df.iloc[...]] returns it. *)
Abbreviation Row := (gmap string cell).

(** [df.iloc[-k]] for [k >= 1]: out of bounds when the frame has fewer
    than [k] rows. *)
Definition iloc_neg (k : nat) (df : DataFrame) : result Row :=
  if (len df <? k)%nat then Raise IndexError
  else Ok (omap (λ s : Series, s !! (len df - k)%nat) (columns df)).

(** [row[name]] *)
Definition row_get (r : Row) (name : string) : result cell :=
  match r !! name with
  | Some c => Ok c
  | None => Raise (KeyError name)
  end.

(** [s.iloc[-1]] on a column. *)
Definition series_last (s : Series) : result cell :=
  match last s with
  | Some c => Ok c
  | None => Raise IndexError
  end.

(** ** The program *)

Section Screener.
Variable sqrt : Qc → Qc.

(** [calculate_indicators(df)].  The frame is mutated in place: the model
    returns the contents of the frame after the call together with the
    Python return value, [None] or the (same, mutated) frame. *)
Definition calculate_indicators (df : DataFrame)
    : result (DataFrame * option DataFrame) :=
  if (len df <? 35)%nat then Ok (df, None)
  else
    close ← get_col df "Close";
    let df := set_col "SMA15" (rolling_mean 15 close) df in
    close ← get_col df "Close";
    let df := set_col "SMA20" (rolling_mean 20 close) df in
    close ← get_col df "Close";
    let std := rolling_std sqrt 20 close in
    sma20 ← get_col df "SMA20";
    let df := set_col "Upper" (series_add sma20 (scalar_mul 2%Qc std)) df in
    sma20 ← get_col df "SMA20";
    let df := set_col "Lower" (series_sub sma20 (scalar_mul 2%Qc std)) df in
    close ← get_col df "Close";
    let exp12 := ewm_mean 12 close in
    close ← get_col df "Close";
    let exp26 := ewm_mean 26 close in
    let df := set_col "MACD" (series_sub exp12 exp26) df in
    macd ← get_col df "MACD";
    let df := set_col "Signal" (ewm_mean 9 macd) df in
    macd ← get_col df "MACD";
    signal ← get_col df "Signal";
    let df := set_col "Hist" (series_sub macd signal) df in
    Ok (df, Some df).

(** The labels appended to the match list. *)
Definition label_S8 : string := "MACD 緩步爬升".
Definition label_S3 : string := "突破布林上軌".

(** [x and y] where evaluating [y] may raise: [y] is evaluated only
    when [x] holds. *)
Definition and_then (x : result bool) (y : result bool) : result bool :=
  b ← x; if b : bool then y else Ok false.

(** [last['MACD'] > prev['MACD'] > prev2['MACD'] and
     last['MACD'] > last['Signal'] and last['Hist'] > 0] *)
Definition cond_S8 (last prev prev2 : Row) : result bool :=
  and_then
    (and_then
       (a ← row_get last "MACD";
        b ← row_get prev "MACD";
        if cell_gt a b then c ← row_get prev2 "MACD"; Ok (cell_gt b c)
        else Ok false)
       (a ← row_get last "MACD";
        s ← row_get last "Signal";
        Ok (cell_gt a s)))
    (h ← row_get last "Hist"; Ok (cell_gt h (Some 0%Qc))).

(** [last['Close'] > last['Upper'] and prev['Close'] <= prev['Upper']] *)
Definition cond_S3 (last prev : Row) : result bool :=
  and_then
    (c ← row_get last "Close"; u ← row_get last "Upper"; Ok (cell_gt c u))
    (c ← row_get prev "Close"; u ← row_get prev "Upper"; Ok (cell_le c u)).

(** [check_strategies(df, strategies)] *)
Definition check_strategies (df : DataFrame) (strategies : list string)
    : result (list string) :=
  last ← iloc_neg 1 df;
  prev ← iloc_neg 2 df;
  prev2 ← iloc_neg 3 df;
  let results : list string := [] in
  results ←
    (if bool_decide ("S8" ∈ strategies) then
       cond ← cond_S8 last prev prev2;
       Ok (if cond : bool then results ++ [label_S8] else results)
     else Ok results);
  results ←
    (if bool_decide ("S3" ∈ strategies) then
       cond ← cond_S3 last prev;
       Ok (if cond : bool then results ++ [label_S3] else results)
     else Ok results);
  Ok results.

(** [stock_str.split('  ')[0]]: what precedes the first occurrence of the
    separator. *)
Fixpoint split_head (sep s : string) : string :=
  match s with
  | EmptyString => EmptyString
  | String c s' =>
      if String.prefix sep s then EmptyString else String c (split_head sep s')
  end.

(** [min_p <= current_price <= max_p] *)
Definition price_in_range (min_p max_p : Qc) (current_price : cell) : bool :=
  cell_le (Some min_p) current_price && cell_le current_price (Some max_p).

(** The dictionary returned for a qualifying symbol. *)
Record MatchRecord : Type := mkMatch {
  symbol : string;
  df : DataFrame;
  matches : list string;
  price : cell
}.

(** [yf.download(symbol, period="2y", interval="1wk", progress=False)] *)
Variable download : string → result DataFrame.

(** The body of the [try] block of [process_stock], followed by the
    final [return None]. *)
Definition process_stock_body (stock_str : string) (strategies : list string)
    (min_p max_p : Qc) : result (option MatchRecord) :=
  let symbol := split_head "  " stock_str +:+ ".TW" in
  data ← download symbol;
  if empty data || (len data <? 35)%nat then Ok None
  else
    close ← get_col data "Close";
    current_price ← series_last close;
    if negb (price_in_range min_p max_p current_price) then Ok None
    else
      '(data, ret) ← calculate_indicators data;
      match ret with
      | None => Raise AttributeError        (* [None.iloc] *)
      | Some df =>
          matches ← check_strategies df strategies;
          match matches with
          | [] => Ok None
          | _ :: _ => Ok (Some (mkMatch stock_str df matches current_price))
          end
      end.

(** [process_stock(stock_str, strategies, min_p, max_p)] *)
Definition process_stock (stock_str : string) (strategies : list string)
    (min_p max_p : Qc) : result (option MatchRecord) :=
  try_except (process_stock_body stock_str strategies min_p max_p) (Ok None).

(** *** The scan *)

(** What the scan leaves behind: the tasks handed to the executor, the
    collected records, and every value written to the progress bar and to
    the status text. *)
Record ScanRun : Type := mkRun {
  submitted : list string;
  results : list MatchRecord;
  progress_bar : list Qc;
  status_text : list (nat * nat)
}.

(** A future holds what its task returned or raised; [future.result()]
    re-raises. *)
Abbreviation Future := (result (option MatchRecord)).

(** [for i, future in enumerate(futures): ...] *)
Fixpoint collect (total : nat) (i : nat) (futures : list Future) (run : ScanRun)
    : result ScanRun :=
  match futures with
  | [] => Ok run
  | future :: rest =>
      res ← future;
      let results :=
        match res with
        | Some r => results run ++ [r]
        | None => results run
        end in
      let run :=
        mkRun (submitted run) results
          (progress_bar run ++ [(Qc_of_Z (Z.of_nat (i + 1)) / Qc_of_Z (Z.of_nat total))%Qc])
          (status_text run ++ [((i + 1)%nat, total)]) in
      collect total (S i) rest run
  end.

(** The body of [if st.sidebar.button(...)], from [stock_targets] to the
    end of the [with ThreadPoolExecutor] block.  Tasks share no state, so
    each future is the value its task computes. *)
Definition scan (stock_targets : list string) (strategies : list string)
    (price_range : Z * Z) : result ScanRun :=
  let futures :=
    (λ s, process_stock s strategies
            (Qc_of_Z price_range.1) (Qc_of_Z price_range.2))
      <$> stock_targets in
  collect (length stock_targets) 0 futures (mkRun stock_targets [] [] []).

(** [strategies] as the two checkboxes build it. *)
Definition selected_strategies (s8 s3 : bool) : list string :=
  (if s8 then ["S8"] else []) ++ (if s3 then ["S3"] else []).
End Screener.

(** ** The stock list and the targets of a scan *)

(** A row of the table scraped from the exchange, reduced to the two
    columns the program reads: the code and name of the security (a text)
    and its industry (a text, or NaN). *)
Record Listing : Type := mkListing {
  listing_name : string;
  listing_industry : option string
}.

(** [s.str.contains(sep)] for a pattern without special characters: [sep]
    occurs somewhere in [s]. *)
Fixpoint contains (sep s : string) : bool :=
  String.prefix sep s ||
  match s with
  | EmptyString => false
  | String _ s' => contains sep s'
  end.

(** The order of Python on strings, by code point: on UTF-8 bytes, the
    byte-wise lexicographic order. *)
Definition str_le (a b : string) : Prop := String.leb a b = true.
Definition str_lt (a b : string) : Prop := String.ltb a b = true.

Global Instance str_le_dec : RelDecision str_le.
Proof. intros a b. unfold str_le. apply _. Defined.

(** [sorted(xs)] *)
Definition sorted (xs : list string) : list string := merge_sort str_le xs.

(** [get_taiwan_stock_list()], from the parsed table on.  The request, the
    parsing of the page and the promotion of its first row to the header
    are the input: [table] is the frame after [df = df.iloc[1:]], with a
    text in every name cell.  The rows whose name holds the separator are
    kept, and the industries of the kept rows ([dropna], [set], [sorted])
    are listed once each, in order. *)
Definition get_taiwan_stock_list (table : list Listing) : list Listing * list string :=
  let df := filter (λ r, contains "  " (listing_name r) = true) table in
  let industries := sorted (remove_dups (omap listing_industry df)) in
  (df, industries).

(** The first choice of the industry box. *)
Definition all_industries : string := "全部".

(** The choices of [st.sidebar.selectbox]. *)
Definition industry_options (industry_list : list string) : list string :=
  all_industries :: industry_list.

(** [stock_targets], from the list and the chosen industry. *)
Definition stock_targets_of (raw_df : list Listing) (selected_industry : string)
    : list string :=
  let target_df :=
    if bool_decide (selected_industry = all_industries) then raw_df
    else filter (λ r, listing_industry r = Some selected_industry) raw_df in
  listing_name <$> target_df.

(** *** The table shown for a match *)

(** [df.tail(n)] *)
Definition tail_rows (n : nat) (df : DataFrame) : DataFrame :=
  mkDF (drop (len df - n) (index df)) (drop (len df - n) <$> columns df).

(** [df[[c1, c2, ...]]]: the listed columns, a KeyError when one is
    missing. *)
Definition select_columns (names : list string) (df : DataFrame) : result DataFrame :=
  match filter (λ c, columns df !! c = None) names with
  | [] => Ok (mkDF (index df) (filter (λ kv, kv.1 ∈ names) (columns df)))
  | c :: _ => Raise (KeyError c)
  end.

(** [item['df'].tail(5)[['Close', 'MACD', 'Signal', 'Hist']]] *)
Definition shown_table (item : MatchRecord) : result DataFrame :=
  select_columns ["Close"; "MACD"; "Signal"; "Hist"] (tail_rows 5 (df item)).

(** ** Vocabulary of the properties *)

(** The columns a price provider delivers and the columns
    [calculate_indicators] adds. *)
Definition price_fields : list string := ["Open"; "High"; "Low"; "Close"; "Volume"].
Definition indicator_fields : list string :=
  ["SMA15"; "SMA20"; "Upper"; "Lower"; "MACD"; "Signal"; "Hist"].

(** A price series: the closes are aligned with the index and are numbers.
    (Nothing is asked of the other price columns.) *)
Definition PriceSeries (df : DataFrame) : Prop :=
  ∃ close : Series,
    columns df !! "Close" = Some close ∧ length close = len df ∧ Forall is_Some close.

(** An indicator series: every price and indicator column is present and
    aligned with the index.  Cells may be NaN. *)
Definition IndicatorSeries (df : DataFrame) : Prop :=
  ∀ name, name ∈ price_fields ++ indicator_fields →
    ∃ s : Series, columns df !! name = Some s ∧ length s = len df.

(** A price frame: the five price columns are present and aligned with
    the index.  Cells may be NaN. *)
Definition PriceFrame (df : DataFrame) : Prop :=
  ∀ name, name ∈ price_fields →
    ∃ s : Series, columns df !! name = Some s ∧ length s = len df.

(** Column [name] holds a number, respectively the NaN marker, at bar [i]. *)
Definition defined_at (df : DataFrame) (name : string) (i : nat) : Prop :=
  ∃ (s : Series) (x : Qc), columns df !! name = Some s ∧ s !! i = Some (Some x).
Definition undefined_at (df : DataFrame) (name : string) (i : nat) : Prop :=
  ∃ s : Series, columns df !! name = Some s ∧ s !! i = Some NaN.

(** The first bar at which each indicator column holds a number: the
    rolling windows of 15 and 20 bars fill at bars 14 and 19, the
    exponential averages start at bar 0. *)
Definition first_defined (name : string) : nat :=
  if bool_decide (name = "SMA15") then 14
  else if bool_decide (name ∈ ["SMA20"; "Upper"; "Lower"]) then 19
  else 0.

(** Every indicator column is defined from bar [k] on and NaN before. *)
Definition defined_exactly_from (k : nat) (df : DataFrame) : Prop :=
  ∀ name, name ∈ indicator_fields → ∀ i, i < len df →
    (k ≤ i → defined_at df name i) ∧ (i < k → undefined_at df name i).

(** The cell of column [name] at bar [i]; NaN when there is no such cell. *)
Definition cell_at (df : DataFrame) (name : string) (i : nat) : cell :=
  match columns df !! name with
  | Some s => default NaN (s !! i)
  | None => NaN
  end.

(** The cell of column [name] in the bar [k] places from the end
    ([k = 1] is the last bar). *)
Definition back (df : DataFrame) (name : string) (k : nat) : cell :=
  cell_at df name (len df - k).

(** The two rules, read off the last three bars. *)
Definition S8_rule (df : DataFrame) : bool :=
  cell_gt (back df "MACD" 1) (back df "MACD" 2) &&
  cell_gt (back df "MACD" 2) (back df "MACD" 3) &&
  cell_gt (back df "MACD" 1) (back df "Signal" 1) &&
  cell_gt (back df "Hist" 1) (Some 0%Qc).

Definition S3_rule (df : DataFrame) : bool :=
  cell_gt (back df "Close" 1) (back df "Upper" 1) &&
  cell_le (back df "Close" 2) (back df "Upper" 2).

(** Comparisons of numbers; they hold of no NaN. *)
Definition num_gt (a b : cell) : Prop :=
  ∃ x y : Qc, a = Some x ∧ b = Some y ∧ (y < x)%Qc.
Definition num_le (a b : cell) : Prop :=
  ∃ x y : Qc, a = Some x ∧ b = Some y ∧ (x ≤ y)%Qc.

(** [df.iloc[:n]]: the first [n] bars. *)
Definition head_rows (n : nat) (df : DataFrame) : DataFrame :=
  mkDF (take n (index df)) (take n <$> columns df).

(** A request the scan is started with. *)
Record ScanRequest : Type := mkRequest {
  universe : list string;
  requested : list string;
  price_range : Z * Z
}.

Definition malformed (req : ScanRequest) : Prop :=
  requested req = [] ∨ ((price_range req).2 < (price_range req).1)%Z.

(** What the task of a symbol hands to the aggregator: the record its
    [try] block computed, nothing when the block returned [None] or
    raised. *)
Definition task_outcome (sqrt : Qc → Qc) (download : string → result DataFrame)
    (stock_str : string) (strategies : list string) (min_p max_p : Qc)
    : option MatchRecord :=
  match process_stock_body sqrt download stock_str strategies min_p max_p with
  | Ok r => r
  | Raise _ => None
  end.

(** The scan, started on a request. *)
Definition scan_request (sqrt : Qc → Qc) (download : string → result DataFrame)
    (req : ScanRequest) : result ScanRun :=
  scan sqrt download (universe req) (requested req) (price_range req).

(** The cell is a number between [lo] and [hi]. *)
Definition within (lo hi : Qc) (c : cell) : Prop :=
  ∃ x : Qc, c = Some x ∧ (lo ≤ x)%Qc ∧ (x ≤ hi)%Qc.

(** A magnitude that keeps the float64 arithmetic of the program finite.
    With closes of at most this size, no sum over a window of twenty bars,
    no squared deviation from a window's mean and no weighted average that
    the computation forms comes near the largest float64 (about 1.8e308),
    so no cell overflows to an infinity and none becomes NaN through
    arithmetic on infinities. *)
Definition moderate : Qc := Qc_of_Z (10 ^ 100).

(** A price series with moderate closes: the close column is present,
    aligned with the index, and each of its cells is a number of magnitude
    at most [moderate].  On such a series the cells of the program are NaN
    exactly where the cells of the model are, and the exact arithmetic of
    the model stands for float64 arithmetic up to rounding. *)
Definition ModeratePriceSeries (df : DataFrame) : Prop :=
  ∃ close : Series,
    columns df !! "Close" = Some close ∧ length close = len df ∧
    Forall (within (- moderate) moderate) close.

(** ** Sample data *)

(** A square root to six decimals, to run the model. *)
Definition sqrt_approx (q : Qc) : Qc :=
  Q2Qc (Z.sqrt (Qnum q * 10 ^ 12 / Z.pos (Qden q)) # 10 ^ 6).

(** A weekly frame whose five price columns all hold the given cells. *)
Definition frame_of (s : Series) : DataFrame :=
  mkDF (Z.of_nat <$> seq 0 (length s))
       (<["Open" := s]> (<["High" := s]> (<["Low" := s]>
          (<["Close" := s]> (<["Volume" := s]> ∅))))).

Definition price_frame (closes : list Qc) : DataFrame := frame_of (Some <$> closes).

(** Closes 100, 101, 102, ... *)
Definition ramp (n : nat) : list Qc :=
  (λ i, Qc_of_Z (100 + Z.of_nat i)) <$> seq 0 n.

(** 35 weekly bars as the provider may deliver them, the cells of bar 32
    missing. *)
Definition gap_frame : DataFrame := frame_of (<[32 := NaN]> (Some <$> ramp 35)).

(** A frame of three bars with all twelve columns; the indicator cells of
    the oldest bar are NaN. *)
Definition three_bars : DataFrame :=
  let px : Series := [Some (Qc_of_Z 10); Some (Qc_of_Z 11); Some (Qc_of_Z 12)] in
  let ind : Series := [NaN; Some (Qc_of_Z 1); Some (Qc_of_Z 2)] in
  mkDF [0; 1; 2]%Z
    (list_to_map
       (((λ name, (name, px)) <$> price_fields) ++
        ((λ name, (name, ind)) <$> indicator_fields))).

(** A provider that has 35 weekly bars for every symbol. *)
Definition ramp_provider (symbol : string) : result DataFrame :=
  Ok (price_frame (ramp 35)).

(** A provider that fails for one symbol and has 35 bars for the others. *)
Definition flaky_provider (symbol : string) : result DataFrame :=
  if bool_decide (symbol = "2317.TW") then Raise (ProviderError "timeout")
  else Ok (price_frame (ramp 35)).

(** Two requests the spec calls malformed: no strategy ticked, and a price
    range whose bounds are swapped. *)
Definition no_strategy_request : ScanRequest :=
  mkRequest ["2330  台積電"] (selected_strategies false false) (10, 500)%Z.
Definition inverted_range_request : ScanRequest :=
  mkRequest ["2330  台積電"] (selected_strategies true false) (500, 10)%Z.

(** A provider that is down. *)
Definition failing_provider (symbol : string) : result DataFrame :=
  Raise (ProviderError "unavailable").

(** 35 weekly bars that all close at 50. *)
Definition flat_frame : DataFrame := price_frame (replicate 35 (Qc_of_Z 50)).

(** 34 weekly bars that close at 50, then one that closes at 55: the last
    close crosses the upper band. *)
Definition breakout_frame : DataFrame :=
  price_frame (replicate 34 (Qc_of_Z 50) ++ [Qc_of_Z 55]).

(** Three bars on which both rules hold: MACD rises above its signal with
    a positive histogram, and the last close crosses the upper band. *)
Definition signal_bars : DataFrame :=
  let num (zs : list Z) : Series := (λ z, Some (Qc_of_Z z)) <$> zs in
  mkDF [0; 1; 2]%Z
    (<["Close" := num [10; 11; 12]%Z]> (<["Upper" := num [11; 11; 11]%Z]>
       (<["MACD" := num [1; 2; 3]%Z]> (<["Signal" := num [0; 1; 2]%Z]>
          (<["Hist" := num [1; 1; 1]%Z]> ∅))))).

(** A scraped table: a heading row, three stocks of two industries and a
    fund without industry. *)
Definition sample_table : list Listing :=
  [mkListing "股票" (Some "股票");
   mkListing "2330  台積電" (Some "半導體業");
   mkListing "2317  鴻海" (Some "其他電子業");
   mkListing "2454  聯發科" (Some "半導體業");
   mkListing "0050  元大台灣50" None].

(** * Properties *)

(** ** Series operations *)

Lemma observations_cons_Some (x : Qc) (xs : list cell) :
  observations (Some x :: xs) = x :: observations xs.
Proof. reflexivity. Qed.

Lemma observations_cons_NaN (xs : list cell) :
  observations (NaN :: xs) = observations xs.
Proof. reflexivity. Qed.

Lemma length_observations (xs : list cell) :
  Forall is_Some xs → length (observations xs) = length xs.
Proof.
  induction 1 as [|c xs [x ->] _ IH]; [done|].
  rewrite observations_cons_Some. simpl. by rewrite IH.
Qed.

Lemma length_observations_le (xs : list cell) :
  length (observations xs) ≤ length xs.
Proof.
  induction xs as [|[x|] xs IH]; [done| |].
  - rewrite observations_cons_Some. simpl. lia.
  - change (None :: xs) with (NaN :: xs). rewrite observations_cons_NaN. simpl. lia.
Qed.

Lemma length_window_at (w i : nat) (xs : Series) :
  i < length xs → length (window_at w i xs) = w `min` S i.
Proof.
  intros Hi. unfold window_at. rewrite length_take, length_drop. lia.
Qed.

Lemma window_at_defined (w i : nat) (xs : Series) :
  Forall is_Some xs → Forall is_Some (window_at w i xs).
Proof. intros H. unfold window_at. by apply Forall_take, Forall_drop. Qed.

Lemma length_rolling (w : nat) (agg : list Qc → cell) (xs : Series) :
  length (rolling w agg xs) = length xs.
Proof. unfold rolling. by rewrite length_fmap, length_seq. Qed.

(** Before the window fills, the rolling aggregate is NaN: whatever the
    cells are. *)
Lemma rolling_warmup (w : nat) (agg : list Qc → cell) (xs : Series) (i : nat) :
  i < length xs → S i < w → rolling w agg xs !! i = Some NaN.
Proof.
  intros Hi Hw. unfold rolling.
  rewrite list_lookup_fmap, lookup_seq_lt by done. simpl.
  pose proof (length_observations_le (window_at w i xs)) as Hle.
  rewrite length_window_at in Hle by done.
  destruct (Nat.leb_spec w (length (observations (window_at w i xs)))); [lia|done].
Qed.

(** Once the window is full of numbers, the rolling aggregate is the
    aggregate of exactly [w] observations. *)
Lemma rolling_full (w : nat) (agg : list Qc → cell) (xs : Series) (i : nat) :
  Forall is_Some xs → i < length xs → w ≤ S i →
  ∃ obs, length obs = w ∧ rolling w agg xs !! i = Some (agg obs).
Proof.
  intros Hdef Hi Hw. exists (observations (window_at w i xs)).
  assert (length (observations (window_at w i xs)) = w) as Hlen.
  { rewrite length_observations by by apply window_at_defined.
    rewrite length_window_at by done. lia. }
  split; [done|]. unfold rolling.
  rewrite list_lookup_fmap, lookup_seq_lt by done. simpl.
  rewrite Hlen, Nat.leb_refl. done.
Qed.

Lemma ewm_step_defined (alpha : Qc) (w old_wt : Qc) (cur : cell) :
  is_Some (ewm_step alpha (Some w, old_wt) cur).1.
Proof. destruct cur; simpl; eauto. Qed.

Lemma ewm_from_defined (alpha : Qc) (xs : Series) (w old_wt : Qc) :
  Forall is_Some (ewm_from alpha (Some w, old_wt) xs).
Proof.
  revert w old_wt. induction xs as [|cur xs IH]; intros w old_wt; simpl; [done|].
  constructor; [apply ewm_step_defined|].
  destruct cur; simpl; apply IH.
Qed.

Lemma length_ewm_from (alpha : Qc) (xs : Series) (st : cell * Qc) :
  length (ewm_from alpha st xs) = length xs.
Proof. revert st. induction xs as [|cur xs IH]; intros st; simpl; [done|]. by rewrite IH. Qed.

Lemma length_ewm_mean (span : Z) (xs : Series) :
  length (ewm_mean span xs) = length xs.
Proof. destruct xs; simpl; [done|]. by rewrite length_ewm_from. Qed.

(** The exponential average of numbers is a number at every bar, the
    first included. *)
Lemma ewm_mean_defined (span : Z) (xs : Series) :
  Forall is_Some xs → Forall is_Some (ewm_mean span xs).
Proof.
  intros H. destruct H as [|c xs [x ->] _]; simpl; [done|].
  constructor; [eauto|]. apply ewm_from_defined.
Qed.

Lemma series_sub_defined (a b : Series) :
  Forall is_Some a → Forall is_Some b → Forall is_Some (series_sub a b).
Proof.
  intros Ha. revert b. unfold series_sub.
  induction Ha as [|x a [x' ->] _ IH]; intros b Hb; [done|].
  destruct Hb as [|y b [y' ->] Hb]; simpl; [done|].
  constructor; [eauto|]. by apply IH.
Qed.

Lemma length_series_sub (a b : Series) :
  length a = length b → length (series_sub a b) = length a.
Proof. intros H. unfold series_sub. rewrite length_zip_with. lia. Qed.

Lemma lookup_defined (s : Series) (i : nat) :
  Forall is_Some s → i < length s → ∃ x : Qc, s !! i = Some (Some x).
Proof.
  intros Hs Hi. destruct (lookup_lt_is_Some_2 s i Hi) as [c Hc].
  destruct (proj1 (Forall_lookup _ _) Hs i c Hc) as [x ->]. eauto.
Qed.

Lemma within_defined (lo hi : Qc) (xs : Series) :
  Forall (within lo hi) xs → Forall is_Some xs.
Proof.
  intros H. eapply Forall_impl; [exact H|]. intros c (x & -> & _). eauto.
Qed.

Lemma moderate_price_series (df : DataFrame) :
  ModeratePriceSeries df → PriceSeries df.
Proof.
  intros (close & Hclose & Hlen & Hmod). exists close.
  repeat (split; [done|]). by apply (within_defined (- moderate) moderate).
Qed.

(** ** The indicator computation *)

Section IndicatorEngine.
Variable sqrt : Qc → Qc.

Lemma get_col_Some (df : DataFrame) (name : string) (s : Series) :
  columns df !! name = Some s → get_col df name = Ok s.
Proof. intros H. unfold get_col. by rewrite H. Qed.

(** On a frame of at least 35 bars that has a [Close] column, the
    computation returns the frame it was given, with seven columns set to
    the series below and everything else as it was. *)
Lemma calculate_indicators_columns (df : DataFrame) (close : Series) :
  35 ≤ len df → columns df !! "Close" = Some close →
  ∃ df',
    calculate_indicators sqrt df = Ok (df', Some df') ∧
    index df' = index df ∧
    (∀ name, name ∉ indicator_fields → columns df' !! name = columns df !! name) ∧
    let sma20 := rolling_mean 20 close in
    let std := rolling_std sqrt 20 close in
    let macd := series_sub (ewm_mean 12 close) (ewm_mean 26 close) in
    let signal := ewm_mean 9 macd in
    columns df' !! "SMA15" = Some (rolling_mean 15 close) ∧
    columns df' !! "SMA20" = Some sma20 ∧
    columns df' !! "Upper" = Some (series_add sma20 (scalar_mul 2%Qc std)) ∧
    columns df' !! "Lower" = Some (series_sub sma20 (scalar_mul 2%Qc std)) ∧
    columns df' !! "MACD" = Some macd ∧
    columns df' !! "Signal" = Some signal ∧
    columns df' !! "Hist" = Some (series_sub macd signal).
Proof.
  intros Hlen Hclose. unfold calculate_indicators.
  destruct (Nat.ltb_spec (len df) 35) as [?|_]; [lia|].
  unfold get_col, set_col; simpl. rewrite Hclose; simpl.
  repeat (rewrite ?lookup_insert_eq; rewrite ?lookup_insert_ne by done;
          rewrite ?Hclose; simpl).
  eexists. split; [reflexivity|]. simpl.
  split; [done|]. split.
  - intros name Hname. unfold indicator_fields in Hname.
    repeat (rewrite lookup_insert_ne by (intros <-; apply Hname; set_solver)).
    done.
  - repeat split; by simplify_map_eq.
Qed.
End IndicatorEngine.

(** ** Where the indicator columns hold numbers *)

Lemma rolling_mean_defined (w : nat) (xs : Series) (i : nat) :
  Forall is_Some xs → i < length xs → w ≤ S i →
  ∃ x : Qc, rolling_mean w xs !! i = Some (Some x).
Proof.
  intros Hxs Hi Hw.
  destruct (rolling_full w agg_mean xs i Hxs Hi Hw) as (obs & _ & Hobs).
  exists (Qmean obs). exact Hobs.
Qed.

Lemma rolling_std_defined (sqrt : Qc → Qc) (w : nat) (xs : Series) (i : nat) :
  Forall is_Some xs → i < length xs → 2 ≤ w → w ≤ S i →
  ∃ x : Qc, rolling_std sqrt w xs !! i = Some (Some x).
Proof.
  intros Hxs Hi Hw2 Hw.
  destruct (rolling_full w (agg_std sqrt) xs i Hxs Hi Hw) as (obs & Hlen & Hobs).
  unfold rolling_std. rewrite Hobs. unfold agg_std.
  destruct (Nat.leb_spec (length obs) 1); [lia|]. eauto.
Qed.

Lemma lookup_lift2 (f : Qc → Qc → Qc) (a b : Series) (i : nat) (x y : cell) :
  a !! i = Some x → b !! i = Some y →
  zip_with (cell_lift2 f) a b !! i = Some (cell_lift2 f x y).
Proof. intros Ha Hb. rewrite lookup_zip_with, Ha, Hb. done. Qed.

Lemma lookup_scalar_mul (k : Qc) (s : Series) (i : nat) (x : cell) :
  s !! i = Some x → scalar_mul k s !! i = Some (cell_mul (Some k) x).
Proof. intros H. unfold scalar_mul. by rewrite list_lookup_fmap, H. Qed.

(** A band [sma ± k·std] is NaN where the average is NaN and a number
    where average and deviation are numbers. *)
Lemma band_warmup (f : Qc → Qc → Qc) (sma dev : Series) (i : nat) (d : cell) :
  sma !! i = Some NaN → dev !! i = Some d →
  zip_with (cell_lift2 f) sma dev !! i = Some NaN.
Proof. intros Hs Hd. by rewrite (lookup_lift2 f sma dev i NaN d). Qed.

Lemma band_defined (f : Qc → Qc → Qc) (sma dev : Series) (i : nat) (x y : Qc) :
  sma !! i = Some (Some x) → dev !! i = Some (Some y) →
  zip_with (cell_lift2 f) sma dev !! i = Some (Some (f x y)).
Proof. intros Hs Hd. by rewrite (lookup_lift2 f sma dev i (Some x) (Some y)). Qed.

Section IndicatorProperties.
Variable sqrt : Qc → Qc.

(** C5. A frame of fewer than 35 bars is turned away: the computation
    returns [None] and leaves the frame exactly as it was, so that no
    indicator column is computed. *)
Theorem short_series_rejected (df : DataFrame) :
  len df < 35 → calculate_indicators sqrt df = Ok (df, None).
Proof.
  intros Hlen. unfold calculate_indicators.
  destruct (Nat.ltb_spec (len df) 35); [done|lia].
Qed.

(** C2 (as the code has it). On a price series of at least 35 bars whose
    closes are moderate, the computation returns the frame, and in it each
    indicator column holds a number at every bar from its own first defined
    bar on (14 for SMA15, 19 for SMA20 and the two bands, 0 for MACD, Signal
    and Hist) and NaN at every earlier bar; in particular every indicator
    column holds a number at every bar from 34 on.

    The bound on the closes is what the float64 arithmetic of the program
    needs: closes near the largest float64 overflow the sum of a window, and
    the rolling columns are then NaN at bars where the window is full.  The
    NaN cells before a window fills do not depend on the bound. *)
Theorem indicators_defined_from_window (df : DataFrame) :
  ModeratePriceSeries df → 35 ≤ len df →
  ∃ df',
    calculate_indicators sqrt df = Ok (df', Some df') ∧
    len df' = len df ∧
    ∀ name, name ∈ indicator_fields → ∀ i, i < len df' →
      (first_defined name ≤ i → defined_at df' name i) ∧
      (i < first_defined name → undefined_at df' name i) ∧
      (34 ≤ i → defined_at df' name i).
Proof.
  intros (close & Hclose & Hlen & Hmod) H35.
  assert (Forall is_Some close) as Hdef
    by (by apply (within_defined (- moderate) moderate)).
  destruct (calculate_indicators_columns sqrt df close H35 Hclose)
    as (df' & Hrun & Hidx & _ & Hcols).
  simpl in Hcols.
  destruct Hcols as (HS15 & HS20 & HUp & HLo & HMACD & HSig & HHist).
  assert (len df' = len df) as Hlen' by (unfold len; by rewrite Hidx).
  exists df'. split; [done|]. split; [done|].
  intros name Hname i Hi. rewrite Hlen' in Hi.
  assert (i < length close) as Hic by lia.
  assert (Forall is_Some (series_sub (ewm_mean 12 close) (ewm_mean 26 close)))
    as Hmacd by (apply series_sub_defined; by apply ewm_mean_defined).
  assert (length (series_sub (ewm_mean 12 close) (ewm_mean 26 close)) = length close)
    as Hmacdlen.
  { rewrite length_series_sub; rewrite !length_ewm_mean; done. }
  assert (∀ s : Series, columns df' !! name = Some s → Forall is_Some s →
            length s = length close → defined_at df' name i) as Hall.
  { intros s Hs Hsdef Hslen.
    destruct (lookup_defined s i Hsdef) as [x Hx]; [lia|]. by exists s, x. }
  assert (∀ w, 2 ≤ w → w ≤ S i → ∃ x y : Qc,
            rolling_mean w close !! i = Some (Some x) ∧
            rolling_std sqrt w close !! i = Some (Some y)) as Hfull.
  { intros w Hw2 Hw.
    destruct (rolling_mean_defined w close i Hdef Hic Hw) as [x Hx].
    destruct (rolling_std_defined sqrt w close i Hdef Hic Hw2 Hw) as [y Hy].
    eauto. }
  assert (∀ w, S i < w → ∃ d : cell,
            rolling_mean w close !! i = Some NaN ∧
            scalar_mul 2%Qc (rolling_std sqrt w close) !! i = Some d) as Hwarm.
  { intros w Hw. exists (cell_mul (Some 2%Qc) NaN). split.
    - by apply rolling_warmup.
    - apply lookup_scalar_mul. by apply rolling_warmup. }
  unfold indicator_fields in Hname.
  repeat (apply elem_of_cons in Hname as [->|Hname]);
    [ | | | | | | | by apply elem_of_nil in Hname].
  - (* SMA15 *)
    change (first_defined "SMA15") with 14 in *.
    assert (14 ≤ i → defined_at df' "SMA15" i) as Hd.
    { intros ?. destruct (rolling_mean_defined 15 close i Hdef Hic) as [x Hx]; [lia|].
      by exists (rolling_mean 15 close), x. }
    split; [done|]. split; [|auto with lia].
    intros ?. exists (rolling_mean 15 close). split; [done|].
    apply rolling_warmup; lia.
  - (* SMA20 *)
    change (first_defined "SMA20") with 19 in *.
    assert (19 ≤ i → defined_at df' "SMA20" i) as Hd.
    { intros ?. destruct (rolling_mean_defined 20 close i Hdef Hic) as [x Hx]; [lia|].
      by exists (rolling_mean 20 close), x. }
    split; [done|]. split; [|auto with lia].
    intros ?. exists (rolling_mean 20 close). split; [done|].
    apply rolling_warmup; lia.
  - (* Upper *)
    change (first_defined "Upper") with 19 in *.
    assert (19 ≤ i → defined_at df' "Upper" i) as Hd.
    { intros ?. destruct (Hfull 20) as (x & y & Hx & Hy); [lia..|].
      eexists _, _. split; [exact HUp|].
      apply band_defined; [exact Hx|].
      rewrite (lookup_scalar_mul _ _ _ _ Hy). reflexivity. }
    split; [done|]. split; [|auto with lia].
    intros ?. destruct (Hwarm 20) as (d & Hx & Hy); [lia|].
    eexists. split; [exact HUp|]. by apply (band_warmup _ _ _ _ d).
  - (* Lower *)
    change (first_defined "Lower") with 19 in *.
    assert (19 ≤ i → defined_at df' "Lower" i) as Hd.
    { intros ?. destruct (Hfull 20) as (x & y & Hx & Hy); [lia..|].
      eexists _, _. split; [exact HLo|].
      apply band_defined; [exact Hx|].
      rewrite (lookup_scalar_mul _ _ _ _ Hy). reflexivity. }
    split; [done|]. split; [|auto with lia].
    intros ?. destruct (Hwarm 20) as (d & Hx & Hy); [lia|].
    eexists. split; [exact HLo|]. by apply (band_warmup _ _ _ _ d).
  - (* MACD *)
    change (first_defined "MACD") with 0 in *.
    assert (defined_at df' "MACD" i) as Hd by (by apply (Hall _ HMACD)).
    repeat split; [done|lia|done].
  - (* Signal *)
    change (first_defined "Signal") with 0 in *.
    assert (defined_at df' "Signal" i) as Hd.
    { apply (Hall _ HSig); [by apply ewm_mean_defined|].
      by rewrite length_ewm_mean. }
    repeat split; [done|lia|done].
  - (* Hist *)
    change (first_defined "Hist") with 0 in *.
    assert (defined_at df' "Hist" i) as Hd.
    { apply (Hall _ HHist).
      - apply series_sub_defined; [done|by apply ewm_mean_defined].
      - rewrite length_series_sub; [done|]. by rewrite length_ewm_mean. }
    repeat split; [done|lia|done].
Qed.

(** C9. On every frame the computation accepts, the Hist column is the
    MACD column minus the Signal column: wherever MACD and Signal hold
    numbers [m] and [s], Hist holds the number [m - s]. *)
Theorem histogram_is_macd_minus_signal (df : DataFrame) :
  35 ≤ len df → is_Some (columns df !! "Close") →
  ∃ (df' : DataFrame) (macd signal hist : Series),
    calculate_indicators sqrt df = Ok (df', Some df') ∧
    columns df' !! "MACD" = Some macd ∧
    columns df' !! "Signal" = Some signal ∧
    columns df' !! "Hist" = Some hist ∧
    ∀ (t : nat) (m s : Qc),
      macd !! t = Some (Some m) → signal !! t = Some (Some s) →
      hist !! t = Some (Some (m - s)%Qc).
Proof.
  intros H35 [close Hclose].
  destruct (calculate_indicators_columns sqrt df close H35 Hclose)
    as (df' & Hrun & _ & _ & Hcols).
  simpl in Hcols.
  destruct Hcols as (_ & _ & _ & _ & HMACD & HSig & HHist).
  eexists df', _, _, _. repeat (split; [eassumption|]).
  intros t m s Hm Hs. unfold series_sub.
  by rewrite (lookup_lift2 Qcminus _ _ t (Some m) (Some s)).
Qed.
End IndicatorProperties.

(** ** The strategy evaluator *)

Lemma cell_gt_spec (a b : cell) : cell_gt a b = true ↔ num_gt a b.
Proof.
  unfold cell_gt, num_gt. split.
  - destruct a as [x|], b as [y|]; try done.
    intros H%bool_decide_eq_true. by exists x, y.
  - intros (x & y & -> & -> & H). by apply bool_decide_eq_true.
Qed.

Lemma cell_le_spec (a b : cell) : cell_le a b = true ↔ num_le a b.
Proof.
  unfold cell_le, num_le. split.
  - destruct a as [x|], b as [y|]; try done.
    intros H%bool_decide_eq_true. by exists x, y.
  - intros (x & y & -> & -> & H). by apply bool_decide_eq_true.
Qed.

(** No pair of numbers is both [>] and [<=]. *)
Lemma num_gt_not_le (a b : cell) : num_gt a b → ¬ num_le a b.
Proof.
  intros (x & y & -> & -> & Hlt) (x' & y' & [= <-] & [= <-] & Hle).
  by apply (Qclt_not_le _ _ Hlt).
Qed.

Lemma labels_distinct : label_S8 ≠ label_S3.
Proof. discriminate. Qed.

Lemma iloc_neg_short (k : nat) (df : DataFrame) :
  len df < k → iloc_neg k df = Raise IndexError.
Proof. intros H. unfold iloc_neg. destruct (Nat.ltb_spec (len df) k); [done|lia]. Qed.

Lemma iloc_neg_row (k : nat) (df : DataFrame) :
  k ≤ len df →
  iloc_neg k df = Ok (omap (λ s : Series, s !! (len df - k)) (columns df)).
Proof. intros H. unfold iloc_neg. destruct (Nat.ltb_spec (len df) k); [lia|done]. Qed.

(** In an indicator series, a row read from the end holds the cell of
    each of the twelve columns. *)
Lemma row_get_back (df : DataFrame) (name : string) (k : nat) :
  IndicatorSeries df → name ∈ price_fields ++ indicator_fields →
  1 ≤ k → k ≤ len df →
  row_get (omap (λ s : Series, s !! (len df - k)) (columns df)) name
  = Ok (back df name k).
Proof.
  intros Hdf Hname Hk1 Hk. destruct (Hdf name Hname) as (s & Hs & Hlen).
  unfold row_get, back, cell_at. rewrite lookup_omap, Hs. simpl.
  destruct (lookup_lt_is_Some_2 s (len df - k)) as [c Hc]; [lia|].
  by rewrite Hc.
Qed.

Lemma field_elem (name : string) :
  bool_decide (name ∈ price_fields ++ indicator_fields) = true →
  name ∈ price_fields ++ indicator_fields.
Proof. apply bool_decide_eq_true_1. Qed.

(** On an indicator series of at least three bars the evaluator returns,
    and what it returns is the label of each requested rule that holds, S8
    before S3. *)
Lemma check_strategies_eval (df : DataFrame) (strategies : list string) :
  IndicatorSeries df → 3 ≤ len df →
  check_strategies df strategies
  = Ok ((if bool_decide ("S8" ∈ strategies) && S8_rule df then [label_S8] else []) ++
        (if bool_decide ("S3" ∈ strategies) && S3_rule df then [label_S3] else [])).
Proof.
  intros Hdf Hlen. unfold check_strategies.
  rewrite !iloc_neg_row by lia. simpl.
  assert (∀ name k, bool_decide (name ∈ price_fields ++ indicator_fields) = true →
            1 ≤ k → k ≤ 3 →
            row_get (omap (λ s : Series, s !! (len df - k)) (columns df)) name
            = Ok (back df name k)) as Hget.
  { intros name k Hname%field_elem ??. apply row_get_back; [done..|lia]. }
  unfold cond_S8, cond_S3, and_then, S8_rule, S3_rule.
  rewrite !Hget by (done || lia). simpl.
  destruct (bool_decide ("S8" ∈ strategies)), (bool_decide ("S3" ∈ strategies));
    simpl;
    destruct (cell_gt (back df "MACD" 1) (back df "MACD" 2)); simpl;
    destruct (cell_gt (back df "MACD" 2) (back df "MACD" 3)); simpl;
    destruct (cell_gt (back df "MACD" 1) (back df "Signal" 1)); simpl;
    destruct (cell_gt (back df "Hist" 1) (Some 0%Qc)); simpl;
    destruct (cell_gt (back df "Close" 1) (back df "Upper" 1)); simpl;
    destruct (cell_le (back df "Close" 2) (back df "Upper" 2)); reflexivity.
Qed.

Lemma S8_rule_spec (df : DataFrame) :
  S8_rule df = true ↔
    num_gt (back df "MACD" 1) (back df "MACD" 2) ∧
    num_gt (back df "MACD" 2) (back df "MACD" 3) ∧
    num_gt (back df "MACD" 1) (back df "Signal" 1) ∧
    num_gt (back df "Hist" 1) (Some 0%Qc).
Proof. unfold S8_rule. rewrite !andb_true_iff, !cell_gt_spec. tauto. Qed.

Lemma S3_rule_spec (df : DataFrame) :
  S3_rule df = true ↔
    num_gt (back df "Close" 1) (back df "Upper" 1) ∧
    num_le (back df "Close" 2) (back df "Upper" 2).
Proof. unfold S3_rule. by rewrite andb_true_iff, cell_gt_spec, cell_le_spec. Qed.

Lemma matched_S8_iff (c8 c3 : bool) :
  label_S8 ∈ (if c8 then [label_S8] else []) ++ (if c3 then [label_S3] else [])
  ↔ c8 = true.
Proof.
  pose proof labels_distinct as Hne.
  destruct c8, c3; simpl; set_unfold; intuition congruence.
Qed.

Lemma matched_S3_iff (c8 c3 : bool) :
  label_S3 ∈ (if c8 then [label_S8] else []) ++ (if c3 then [label_S3] else [])
  ↔ c3 = true.
Proof.
  pose proof labels_distinct as Hne.
  destruct c8, c3; simpl; set_unfold; intuition congruence.
Qed.

(** *** Evaluating at an earlier bar *)

Lemma len_head_rows (n : nat) (df : DataFrame) :
  n ≤ len df → len (head_rows n df) = n.
Proof. intros H. unfold len, head_rows in *. simpl. rewrite length_take. lia. Qed.

Lemma head_rows_indicator_series (n : nat) (df : DataFrame) :
  IndicatorSeries df → n ≤ len df → IndicatorSeries (head_rows n df).
Proof.
  intros Hdf Hn name Hname. destruct (Hdf name Hname) as (s & Hs & Hlen).
  exists (take n s). split.
  - unfold head_rows. simpl. by rewrite lookup_fmap, Hs.
  - rewrite len_head_rows by done. rewrite length_take. lia.
Qed.

Lemma cell_at_head_rows (n : nat) (df : DataFrame) (name : string) (i : nat) :
  i < n → cell_at (head_rows n df) name i = cell_at df name i.
Proof.
  intros Hi. unfold cell_at, head_rows. simpl. rewrite lookup_fmap.
  destruct (columns df !! name) as [s|]; simpl; [|done].
  by rewrite lookup_take_lt.
Qed.

(** C3. On an indicator series of at least three bars the evaluator
    returns a match list; the S8 label is in it only if S8 was requested,
    and when S8 is requested it is in it exactly when MACD rose strictly
    over the last three bars, MACD is above Signal at the last bar and Hist
    is above 0 at the last bar.  With Hist at or below 0 at the last bar
    the S8 label is never in the list. *)
Theorem S8_matches_iff (df : DataFrame) (strategies : list string) :
  IndicatorSeries df → 3 ≤ len df →
  ∃ res : list string,
    check_strategies df strategies = Ok res ∧
    (label_S8 ∈ res → "S8" ∈ strategies) ∧
    ("S8" ∈ strategies →
       (label_S8 ∈ res ↔
          num_gt (back df "MACD" 1) (back df "MACD" 2) ∧
          num_gt (back df "MACD" 2) (back df "MACD" 3) ∧
          num_gt (back df "MACD" 1) (back df "Signal" 1) ∧
          num_gt (back df "Hist" 1) (Some 0%Qc))) ∧
    (num_le (back df "Hist" 1) (Some 0%Qc) → label_S8 ∉ res).
Proof.
  intros Hdf Hlen. eexists. split; [by apply check_strategies_eval|].
  rewrite matched_S8_iff, andb_true_iff, bool_decide_eq_true, S8_rule_spec.
  split; [tauto|]. split; [tauto|].
  intros Hle (_ & _ & _ & _ & Hgt). by apply (num_gt_not_le _ _ Hgt).
Qed.

(** C4. On an indicator series of at least three bars whose upper band
    holds numbers at the last two bars, the evaluator returns a match list;
    the S3 label is in it only if S3 was requested, and when S3 is
    requested it is in it exactly when the last close is above the band and
    the close before it was at or below the band.  Hence, evaluating at any
    bar whose predecessor already closed above the band gives no S3 match:
    a close that stays above the band matches on the transition bar only. *)
Theorem S3_matches_iff (df : DataFrame) (strategies : list string) (u1 u2 : Qc) :
  IndicatorSeries df → 3 ≤ len df →
  back df "Upper" 1 = Some u1 → back df "Upper" 2 = Some u2 →
  (∃ res : list string,
     check_strategies df strategies = Ok res ∧
     (label_S3 ∈ res → "S3" ∈ strategies) ∧
     ("S3" ∈ strategies →
        (label_S3 ∈ res ↔
           num_gt (back df "Close" 1) (Some u1) ∧
           num_le (back df "Close" 2) (Some u2)))) ∧
  (∀ n : nat, 3 ≤ n → n ≤ len df →
     num_gt (cell_at df "Close" (n - 2)) (cell_at df "Upper" (n - 2)) →
     ∃ res : list string,
       check_strategies (head_rows n df) strategies = Ok res ∧ label_S3 ∉ res).
Proof.
  intros Hdf Hlen Hu1 Hu2. split.
  - eexists. split; [by apply check_strategies_eval|].
    rewrite matched_S3_iff, andb_true_iff, bool_decide_eq_true, S3_rule_spec.
    rewrite Hu1, Hu2. tauto.
  - intros n Hn3 Hn Hprev. eexists. split.
    + apply check_strategies_eval; [by apply head_rows_indicator_series|].
      by rewrite len_head_rows.
    + rewrite matched_S3_iff, andb_true_iff, S3_rule_spec.
      intros (_ & _ & Hle). revert Hle. apply num_gt_not_le.
      unfold back. rewrite len_head_rows by done.
      rewrite !cell_at_head_rows by lia. done.
Qed.

(** C6 (as the code has it). The evaluator fails, with IndexError, on
    every frame of fewer than three bars; on an indicator series of at
    least three bars it returns a match list, whether or not the cells of
    those bars are numbers. *)
Theorem evaluator_fails_on_short_frames (df : DataFrame) (strategies : list string) :
  (len df < 3 → check_strategies df strategies = Raise IndexError) ∧
  (IndicatorSeries df → 3 ≤ len df →
     ∃ res : list string, check_strategies df strategies = Ok res).
Proof.
  split.
  - intros Hlen. unfold check_strategies.
    destruct (decide (len df < 1)) as [?|?];
      [rewrite (iloc_neg_short 1) by done; reflexivity|].
    rewrite (iloc_neg_row 1) by lia. simpl.
    destruct (decide (len df < 2)) as [?|?];
      [rewrite (iloc_neg_short 2) by done; reflexivity|].
    rewrite (iloc_neg_row 2) by lia. simpl.
    rewrite (iloc_neg_short 3) by done. reflexivity.
  - intros Hdf Hlen. eexists. by apply check_strategies_eval.
Qed.

(** ** The per-symbol task and the scan *)

Lemma price_in_range_spec (min_p max_p : Qc) (c : cell) :
  price_in_range min_p max_p c = true ↔
  ∃ x : Qc, c = Some x ∧ (min_p ≤ x)%Qc ∧ (x ≤ max_p)%Qc.
Proof.
  unfold price_in_range. rewrite andb_true_iff, !cell_le_spec. unfold num_le. split.
  - intros [(a & x & [= <-] & -> & H1) (x' & b & [= <-] & [= <-] & H2)]. eauto.
  - intros (x & -> & H1 & H2). split; eexists _, _; eauto.
Qed.

Lemma price_in_range_inverted (min_p max_p : Qc) (c : cell) :
  (max_p < min_p)%Qc → price_in_range min_p max_p c = false.
Proof.
  intros Hinv. apply not_true_iff_false. rewrite price_in_range_spec.
  intros (x & _ & H1 & H2). apply (Qclt_not_le _ _ Hinv). by trans x.
Qed.

(** With no strategy requested the evaluator returns the empty list or
    raises; it never returns a label. *)
Lemma check_strategies_none_requested (df : DataFrame) (ms : list string) :
  check_strategies df [] = Ok ms → ms = [].
Proof.
  unfold check_strategies.
  destruct (iloc_neg 1 df); simpl; [|done].
  destruct (iloc_neg 2 df); simpl; [|done].
  destruct (iloc_neg 3 df); simpl; [|done].
  by intros [= <-].
Qed.

Lemma omap_id_fmap {A B : Type} (f : A → option B) (l : list A) :
  omap id (f <$> l) = omap f l.
Proof.
  induction l as [|a l IH]; [done|].
  change (omap id (f <$> a :: l))
    with (match f a with Some y => y :: omap id (f <$> l) | None => omap id (f <$> l) end).
  change (omap f (a :: l))
    with (match f a with Some y => y :: omap f l | None => omap f l end).
  by rewrite IH.
Qed.

Section Scanner.
Variable sqrt : Qc → Qc.
Variable download : string → result DataFrame.

(** What it takes for the [try] block to return a record. *)
Lemma process_stock_body_Some (s : string) (strategies : list string)
    (min_p max_p : Qc) (r : MatchRecord) :
  process_stock_body sqrt download s strategies min_p max_p = Ok (Some r) →
  ∃ (data df' : DataFrame) (close : Series) (c : cell) (ms : list string),
    download (split_head "  " s +:+ ".TW") = Ok data ∧
    35 ≤ len data ∧
    columns data !! "Close" = Some close ∧
    last close = Some c ∧
    price_in_range min_p max_p c = true ∧
    calculate_indicators sqrt data = Ok (df', Some df') ∧
    check_strategies df' strategies = Ok ms ∧
    ms ≠ [] ∧
    r = mkMatch s df' ms c.
Proof.
  unfold process_stock_body.
  destruct (download _) as [data|e] eqn:Hdl; simpl; [|done].
  destruct (empty data) eqn:Hempty; simpl; [done|].
  destruct (Nat.ltb_spec (len data) 35) as [?|H35]; [done|].
  unfold get_col. destruct (columns data !! "Close") as [close|] eqn:Hclose; simpl; [|done].
  unfold series_last. destruct (last close) as [c|] eqn:Hlast; simpl; [|done].
  destruct (price_in_range min_p max_p c) eqn:Hprice; simpl; [|done].
  destruct (calculate_indicators_columns sqrt data close H35 Hclose)
    as (df' & Hrun & _).
  rewrite Hrun. simpl.
  destruct (check_strategies df' strategies) as [[|m ms]|e] eqn:Hcheck; simpl; try done.
  intros [= <-]. by eexists data, df', close, c, (m :: ms).
Qed.

(** The bare [except] turns every exception of the block into [None]. *)
Lemma process_stock_total (s : string) (strategies : list string) (min_p max_p : Qc) :
  process_stock sqrt download s strategies min_p max_p
  = Ok (task_outcome sqrt download s strategies min_p max_p).
Proof.
  unfold process_stock, task_outcome, try_except.
  by destruct (process_stock_body sqrt download s strategies min_p max_p).
Qed.

(** The collecting loop over futures that hold values: every future adds
    one entry to the progress bar and one to the status text, and the
    records are appended in order. *)
Lemma collect_values (total : nat) (outs : list (option MatchRecord))
    (i : nat) (run : ScanRun) :
  collect total i (Ok <$> outs) run
  = Ok (mkRun (submitted run)
          (results run ++ omap id outs)
          (progress_bar run ++
             ((λ j, Qc_of_Z (Z.of_nat j) / Qc_of_Z (Z.of_nat total))%Qc
                <$> seq (S i) (length outs)))
          (status_text run ++ ((λ j, (j, total)) <$> seq (S i) (length outs)))).
Proof.
  revert i run. induction outs as [|out outs IH]; intros i run; simpl.
  - rewrite !app_nil_r. by destruct run.
  - rewrite IH. simpl. rewrite Nat.add_1_r.
    destruct out; simpl; rewrite <-?app_assoc; reflexivity.
Qed.

Lemma scan_eval (targets : list string) (strategies : list string) (range : Z * Z) :
  scan sqrt download targets strategies range
  = Ok (mkRun targets
          (omap (λ s, task_outcome sqrt download s strategies
                        (Qc_of_Z range.1) (Qc_of_Z range.2)) targets)
          ((λ j, Qc_of_Z (Z.of_nat j) / Qc_of_Z (Z.of_nat (length targets)))%Qc
             <$> seq 1 (length targets))
          ((λ j, (j, length targets)) <$> seq 1 (length targets))).
Proof.
  unfold scan.
  set (f := λ s, task_outcome sqrt download s strategies
                   (Qc_of_Z range.1) (Qc_of_Z range.2)).
  assert ((λ s, process_stock sqrt download s strategies
                  (Qc_of_Z range.1) (Qc_of_Z range.2)) <$> targets
          = Ok <$> (f <$> targets)) as ->.
  { rewrite <-list_fmap_compose. apply list_fmap_ext.
    intros ? s _. apply process_stock_total. }
  rewrite collect_values, omap_id_fmap, !length_fmap. reflexivity.
Qed.
End Scanner.

Section ScannerProperties.
Variable sqrt : Qc → Qc.
Variable download : string → result DataFrame.

(** C1. Whatever the provider does for each symbol, the scan over [N]
    targets returns normally.  Every target was submitted; the status text
    was written once per target, with the counts 1, 2, ..., N out of N, and
    so was the progress bar; the collected records are, in order, those of
    the targets whose task computed a record, so that a target whose task
    raised (in the fetch or in the computation) or returned nothing is left
    out and changes nothing else. *)
Theorem scan_isolates_symbol_failures (targets : list string)
    (strategies : list string) (range : Z * Z) :
  ∃ run : ScanRun,
    scan sqrt download targets strategies range = Ok run ∧
    submitted run = targets ∧
    status_text run = (λ j, (j, length targets)) <$> seq 1 (length targets) ∧
    length (progress_bar run) = length targets ∧
    results run
    = omap (λ s, task_outcome sqrt download s strategies
                   (Qc_of_Z range.1) (Qc_of_Z range.2)) targets ∧
    ∀ r : MatchRecord,
      r ∈ results run ↔
      ∃ s, s ∈ targets ∧
           process_stock_body sqrt download s strategies
             (Qc_of_Z range.1) (Qc_of_Z range.2) = Ok (Some r).
Proof.
  eexists. split; [apply scan_eval|]. simpl.
  split; [done|]. split; [done|].
  split; [by rewrite length_fmap, length_seq|]. split; [done|].
  intros r. rewrite list_elem_of_omap. unfold task_outcome.
  split; intros (s & Hs & Hr); exists s; (split; [done|]).
  - by destruct (process_stock_body _ _ _ _ _ _) as [?|?]; simplify_eq.
  - by rewrite Hr.
Qed.

(** What the scan does on a request, whatever the request is. *)
Lemma scan_request_outcome (req : ScanRequest) :
  ∃ run : ScanRun,
    scan_request sqrt download req = Ok run ∧
    submitted run = universe req ∧
    length (status_text run) = length (universe req) ∧
    ∀ r : MatchRecord,
      r ∈ results run ↔
      ∃ s, s ∈ universe req ∧
           process_stock_body sqrt download s (requested req)
             (Qc_of_Z (price_range req).1) (Qc_of_Z (price_range req).2)
           = Ok (Some r).
Proof.
  eexists. split; [apply scan_eval|]. simpl.
  split; [done|]. split; [by rewrite length_fmap, length_seq|].
  intros r. rewrite list_elem_of_omap. unfold task_outcome.
  split; intros (s & Hs & Hr); exists s; (split; [done|]).
  - by destruct (process_stock_body _ _ _ _ _ _) as [?|?]; simplify_eq.
  - by rewrite Hr.
Qed.

(** C7 (as the code has it). The scan validates nothing: on every
    request, malformed or not, it returns normally, having submitted every
    symbol of the universe and reported progress once per symbol.  On a
    request with no strategy, or with the bounds of the price range
    swapped, it collects no record. *)
Theorem scan_runs_on_every_request (req : ScanRequest) :
  ∃ run : ScanRun,
    scan_request sqrt download req = Ok run ∧
    submitted run = universe req ∧
    length (status_text run) = length (universe req) ∧
    (malformed req → results run = []).
Proof.
  destruct (scan_request_outcome req) as (run & Hrun & Hsub & Hst & Hres).
  exists run. repeat (split; [done|]).
  intros Hbad. destruct (results run) as [|r rs] eqn:Hrs; [done|].
  destruct (proj1 (Hres r)) as (s & _ & Hbody); [by constructor|].
  apply process_stock_body_Some in Hbody
    as (data & df' & close & c & ms & _ & _ & _ & _ & Hprice & _ & Hcheck & Hms & _).
  destruct Hbad as [Hnone|Hinv].
  - rewrite Hnone in Hcheck. apply check_strategies_none_requested in Hcheck. contradiction.
  - rewrite price_in_range_inverted in Hprice; [done|].
    exact (proj1 (Z2Qc_inj_lt _ _) Hinv).
Qed.
End ScannerProperties.

Section TaskProperties.
Variable sqrt : Qc → Qc.
Variable download : string → result DataFrame.

(** The task of a symbol whose frame has at least 35 bars and whose last
    close is within the price range: the strategies alone decide. *)
Lemma process_stock_in_range (s : string) (strategies : list string)
    (min_p max_p : Qc) (data : DataFrame) (close : Series) (c : cell) :
  download (split_head "  " s +:+ ".TW") = Ok data →
  empty data = false → 35 ≤ len data →
  columns data !! "Close" = Some close → last close = Some c →
  price_in_range min_p max_p c = true →
  ∃ df' : DataFrame,
    calculate_indicators sqrt data = Ok (df', Some df') ∧
    process_stock sqrt download s strategies min_p max_p
    = Ok (match check_strategies df' strategies with
          | Ok (m :: ms) => Some (mkMatch s df' (m :: ms) c)
          | _ => None
          end).
Proof.
  intros Hdl Hempty H35 Hclose Hlast Hprice.
  destruct (calculate_indicators_columns sqrt data close H35 Hclose)
    as (df' & Hrun & _).
  exists df'. split; [done|].
  unfold process_stock, process_stock_body. rewrite Hdl. simpl.
  rewrite Hempty. simpl.
  destruct (Nat.ltb_spec (len data) 35) as [?|_]; [lia|].
  unfold get_col, series_last. rewrite Hclose. simpl. rewrite Hlast. simpl.
  rewrite Hprice. simpl. rewrite Hrun. simpl.
  by destruct (check_strategies df' strategies) as [[|m ms]|e].
Qed.

(** C8. Within a range [min_p <= max_p], a last close equal to [min_p] or
    to [max_p] passes the price check, which accepts exactly the numbers
    [x] with [min_p <= x <= max_p]; the task of a symbol with such a last
    close goes on to the indicators, and the symbol is kept or dropped by
    the strategies alone. *)
Theorem price_filter_bounds_inclusive (min_p max_p p : Qc) :
  (min_p ≤ max_p)%Qc → p = min_p ∨ p = max_p →
  price_in_range min_p max_p (Some p) = true ∧
  (∀ c : cell, price_in_range min_p max_p c = true ↔
               ∃ x : Qc, c = Some x ∧ (min_p ≤ x)%Qc ∧ (x ≤ max_p)%Qc) ∧
  ∀ (s : string) (strategies : list string) (data : DataFrame) (close : Series),
    download (split_head "  " s +:+ ".TW") = Ok data →
    empty data = false → 35 ≤ len data →
    columns data !! "Close" = Some close → last close = Some (Some p) →
    ∃ df' : DataFrame,
      calculate_indicators sqrt data = Ok (df', Some df') ∧
      process_stock sqrt download s strategies min_p max_p
      = Ok (match check_strategies df' strategies with
            | Ok (m :: ms) => Some (mkMatch s df' (m :: ms) (Some p))
            | _ => None
            end).
Proof.
  intros Hrange Hp.
  assert (price_in_range min_p max_p (Some p) = true) as Hin.
  { apply price_in_range_spec. exists p. split; [done|].
    destruct Hp as [->| ->]; split; done. }
  split; [done|]. split; [apply price_in_range_spec|].
  intros s strategies data close Hdl Hempty H35 Hclose Hlast.
  by apply (process_stock_in_range s strategies min_p max_p data close (Some p)).
Qed.

(** C10. On a frame of at least 35 bars with a [Close] column, the
    computation returns the frame with its index and its five price
    columns (Open, High, Low, Close, Volume) exactly as they were: it only
    adds the indicator columns. *)
Theorem price_columns_unchanged (df : DataFrame) :
  35 ≤ len df → is_Some (columns df !! "Close") →
  ∃ df' : DataFrame,
    calculate_indicators sqrt df = Ok (df', Some df') ∧
    index df' = index df ∧
    (∀ name, name ∈ price_fields → columns df' !! name = columns df !! name) ∧
    (∀ name, name ∉ indicator_fields → columns df' !! name = columns df !! name).
Proof.
  intros H35 [close Hclose].
  destruct (calculate_indicators_columns sqrt df close H35 Hclose)
    as (df' & Hrun & Hidx & Hframe & _).
  exists df'. repeat (split; [done|]). split; [|done].
  intros name Hname. apply Hframe.
  unfold price_fields, indicator_fields in *. set_unfold.
  intros Hind. destruct Hname as [->|[->|[->|[->|[->|[]]]]]];
    repeat (destruct Hind as [Hind|Hind]; [discriminate|]); done.
Qed.

(** The frame in a match record is the provider's frame with the
    indicator columns added, and the price in the record is the last cell
    of the provider's [Close] column. *)
Lemma match_record_keeps_prices (s : string) (strategies : list string)
    (min_p max_p : Qc) (r : MatchRecord) :
  process_stock sqrt download s strategies min_p max_p = Ok (Some r) →
  ∃ (data : DataFrame) (close : Series),
    download (split_head "  " s +:+ ".TW") = Ok data ∧
    symbol r = s ∧
    index (df r) = index data ∧
    (∀ name, name ∉ indicator_fields → columns (df r) !! name = columns data !! name) ∧
    columns data !! "Close" = Some close ∧
    last close = Some (price r).
Proof.
  rewrite process_stock_total. intros [= Hout]. unfold task_outcome in Hout.
  destruct (process_stock_body _ _ _ _ _ _) as [o|e] eqn:Hbody; [|done]. subst o.
  apply process_stock_body_Some in Hbody
    as (data & df' & close & c & ms & Hdl & H35 & Hclose & Hlast & _ & Hrun & _ & _ & ->).
  destruct (calculate_indicators_columns sqrt data close H35 Hclose)
    as (df'' & Hrun' & Hidx & Hframe & _).
  rewrite Hrun in Hrun'. injection Hrun' as <-.
  by exists data, close.
Qed.
End TaskProperties.

(** * The properties on sample data *)

Lemma price_frame_series (closes : list Qc) : PriceSeries (price_frame closes).
Proof.
  exists (Some <$> closes). split; [reflexivity|]. split.
  - unfold len. simpl. by rewrite !length_fmap, length_seq.
  - apply Forall_fmap, Forall_true. intros x. by exists x.
Qed.

(** The closes 100, 101, ... of up to a thousand bars are moderate. *)
Lemma ramp_moderate (n : nat) :
  n ≤ 1000 → ModeratePriceSeries (price_frame (ramp n)).
Proof.
  intros Hn. exists (Some <$> ramp n). split; [reflexivity|]. split.
  - unfold len. simpl. by rewrite !length_fmap, length_seq.
  - apply Forall_fmap, Forall_forall. intros x (i & -> & Hi)%list_elem_of_fmap.
    apply elem_of_seq in Hi. exists (Qc_of_Z (100 + Z.of_nat i)).
    split; [reflexivity|]. unfold moderate. rewrite <- Z2Qc_inj_opp.
    split; apply (proj1 (Z2Qc_inj_le _ _)); lia.
Qed.

Lemma three_bars_indicator_series : IndicatorSeries three_bars.
Proof.
  intros name Hname. unfold price_fields, indicator_fields in Hname. simpl in Hname.
  repeat (apply elem_of_cons in Hname as [->|Hname]);
    try (eexists; split; reflexivity).
  by apply elem_of_nil in Hname.
Qed.

Lemma short_series_rejected_witness :
  len (price_frame (ramp 34)) < 35 ∧
  calculate_indicators sqrt_approx (price_frame (ramp 34))
  = Ok (price_frame (ramp 34), None).
Proof.
  split; [vm_compute; lia|].
  apply (short_series_rejected sqrt_approx (price_frame (ramp 34))).
  vm_compute; lia.
Defined.

Lemma indicators_defined_from_window_witness :
  ∃ df' : DataFrame,
    calculate_indicators sqrt_approx (price_frame (ramp 35)) = Ok (df', Some df') ∧
    len df' = len (price_frame (ramp 35)) ∧
    ∀ name, name ∈ indicator_fields → ∀ i, i < len df' →
      (first_defined name ≤ i → defined_at df' name i) ∧
      (i < first_defined name → undefined_at df' name i) ∧
      (34 ≤ i → defined_at df' name i).
Proof.
  apply (indicators_defined_from_window sqrt_approx (price_frame (ramp 35))).
  - apply ramp_moderate. lia.
  - vm_compute; lia.
Defined.

(** A cell read off by evaluation. *)
Lemma lookup_number (s : Series) (i : nat) :
  match s !! i with Some (Some _) => true | _ => false end = true →
  ∃ x : Qc, s !! i = Some (Some x).
Proof. destruct (s !! i) as [[x|]|]; [eauto|done|done]. Qed.

(** Cells of the indicator columns computed from the closes 100, ..., 134. *)
Lemma ramp_macd_bar_0 :
  ∃ x : Qc,
    series_sub (ewm_mean 12 (Some <$> ramp 35)) (ewm_mean 26 (Some <$> ramp 35)) !! 0
    = Some (Some x).
Proof. apply lookup_number. vm_compute. reflexivity. Qed.

Lemma ramp_sma15_bar_14 :
  ∃ x : Qc, rolling_mean 15 (Some <$> ramp 35) !! 14 = Some (Some x).
Proof. apply lookup_number. vm_compute. reflexivity. Qed.

Lemma ramp_upper_bar_19 :
  ∃ x : Qc,
    series_add (rolling_mean 20 (Some <$> ramp 35))
      (scalar_mul 2%Qc (rolling_std sqrt_approx 20 (Some <$> ramp 35))) !! 19
    = Some (Some x).
Proof. apply lookup_number. vm_compute. reflexivity. Qed.

(** The claim of C2 fails on 35 weekly closes 100, 101, ..., 134: MACD
    holds a number at bar 0, SMA15 at bar 14 and the upper band at bar 19,
    so the indicator columns are not NaN at every bar before 34. *)
Lemma indicators_defined_before_bar_34 :
  PriceSeries (price_frame (ramp 35)) ∧
  35 ≤ len (price_frame (ramp 35)) ∧
  ∃ out : DataFrame,
    calculate_indicators sqrt_approx (price_frame (ramp 35)) = Ok (out, Some out) ∧
    defined_at out "MACD" 0 ∧
    defined_at out "SMA15" 14 ∧
    defined_at out "Upper" 19 ∧
    ¬ defined_exactly_from 34 out.
Proof.
  split; [apply price_frame_series|]. split; [vm_compute; lia|].
  destruct (calculate_indicators_columns sqrt_approx (price_frame (ramp 35))
              (Some <$> ramp 35)) as (out & Hrun & Hidx & _ & Hcols);
    [vm_compute; lia|reflexivity|].
  cbv zeta in Hcols. destruct Hcols as (HS15 & _ & HUp & _ & HMACD & _).
  exists out. split; [done|].
  assert (defined_at out "MACD" 0) as Hmacd0.
  { destruct ramp_macd_bar_0 as [x Hx].
    eexists _, x. split; [exact HMACD|exact Hx]. }
  split; [done|]. split.
  { destruct ramp_sma15_bar_14 as [x Hx].
    eexists _, x. split; [exact HS15|exact Hx]. }
  split.
  { destruct ramp_upper_bar_19 as [x Hx].
    eexists _, x. split; [exact HUp|exact Hx]. }
  intros Hclaim.
  destruct (Hclaim "MACD") with (i := 0) as [_ Hnan].
  { unfold indicator_fields. do 4 apply list_elem_of_further. apply list_elem_of_here. }
  { unfold len. rewrite Hidx. vm_compute; lia. }
  destruct Hnan as (s & Hs & Hs0); [lia|].
  destruct Hmacd0 as (s' & x & Hs' & Hx).
  rewrite Hs in Hs'. injection Hs' as <-. rewrite Hx in Hs0. discriminate.
Qed.

Lemma histogram_is_macd_minus_signal_witness :
  ∃ (df' : DataFrame) (macd signal hist : Series),
    calculate_indicators sqrt_approx (price_frame (ramp 35)) = Ok (df', Some df') ∧
    columns df' !! "MACD" = Some macd ∧
    columns df' !! "Signal" = Some signal ∧
    columns df' !! "Hist" = Some hist ∧
    ∀ (t : nat) (m s : Qc),
      macd !! t = Some (Some m) → signal !! t = Some (Some s) →
      hist !! t = Some (Some (m - s)%Qc).
Proof.
  apply (histogram_is_macd_minus_signal sqrt_approx (price_frame (ramp 35))).
  - vm_compute; lia.
  - eexists. reflexivity.
Defined.

Lemma price_columns_unchanged_witness :
  ∃ df' : DataFrame,
    calculate_indicators sqrt_approx (price_frame (ramp 35)) = Ok (df', Some df') ∧
    index df' = index (price_frame (ramp 35)) ∧
    (∀ name, name ∈ price_fields →
       columns df' !! name = columns (price_frame (ramp 35)) !! name) ∧
    (∀ name, name ∉ indicator_fields →
       columns df' !! name = columns (price_frame (ramp 35)) !! name).
Proof.
  apply (price_columns_unchanged sqrt_approx (price_frame (ramp 35))).
  - vm_compute; lia.
  - eexists. reflexivity.
Defined.

Lemma S8_matches_iff_witness :
  ∃ res : list string,
    check_strategies three_bars ["S8"] = Ok res ∧
    (label_S8 ∈ res → "S8" ∈ ["S8"]) ∧
    ("S8" ∈ ["S8"] →
       (label_S8 ∈ res ↔
          num_gt (back three_bars "MACD" 1) (back three_bars "MACD" 2) ∧
          num_gt (back three_bars "MACD" 2) (back three_bars "MACD" 3) ∧
          num_gt (back three_bars "MACD" 1) (back three_bars "Signal" 1) ∧
          num_gt (back three_bars "Hist" 1) (Some 0%Qc))) ∧
    (num_le (back three_bars "Hist" 1) (Some 0%Qc) → label_S8 ∉ res).
Proof.
  apply (S8_matches_iff three_bars ["S8"]).
  - apply three_bars_indicator_series.
  - vm_compute; lia.
Defined.

Lemma S3_matches_iff_witness :
  (∃ res : list string,
     check_strategies three_bars ["S3"] = Ok res ∧
     (label_S3 ∈ res → "S3" ∈ ["S3"]) ∧
     ("S3" ∈ ["S3"] →
        (label_S3 ∈ res ↔
           num_gt (back three_bars "Close" 1) (Some (Qc_of_Z 2)) ∧
           num_le (back three_bars "Close" 2) (Some (Qc_of_Z 1))))) ∧
  (∀ n : nat, 3 ≤ n → n ≤ len three_bars →
     num_gt (cell_at three_bars "Close" (n - 2)) (cell_at three_bars "Upper" (n - 2)) →
     ∃ res : list string,
       check_strategies (head_rows n three_bars) ["S3"] = Ok res ∧ label_S3 ∉ res).
Proof.
  apply (S3_matches_iff three_bars ["S3"] (Qc_of_Z 2) (Qc_of_Z 1)).
  - apply three_bars_indicator_series.
  - vm_compute; lia.
  - vm_compute; reflexivity.
  - vm_compute; reflexivity.
Defined.

Lemma evaluator_fails_on_short_frames_witness :
  check_strategies (head_rows 2 three_bars) ["S8"; "S3"] = Raise IndexError ∧
  ∃ res : list string, check_strategies three_bars ["S8"; "S3"] = Ok res.
Proof.
  split.
  - apply (proj1 (evaluator_fails_on_short_frames (head_rows 2 three_bars) ["S8"; "S3"])).
    vm_compute; lia.
  - apply (proj2 (evaluator_fails_on_short_frames three_bars ["S8"; "S3"])).
    + apply three_bars_indicator_series.
    + vm_compute; lia.
Defined.

(** The claim of C6 fails on a frame of three bars whose oldest bar holds
    NaN in every indicator column: only two trailing bars are fully
    defined, and the evaluator returns a match list (the empty one).  It
    fails as well on the indicators of 35 weekly bars with one close
    missing three weeks back: SMA15 and the upper band are NaN at the last
    bar, and the evaluator returns the S8 label. *)
Lemma undefined_bars_are_evaluated :
  (IndicatorSeries three_bars ∧
   len three_bars = 3 ∧
   (∀ name, name ∈ indicator_fields → undefined_at three_bars name 0) ∧
   check_strategies three_bars ["S8"; "S3"] = Ok []) ∧
  match calculate_indicators sqrt_approx gap_frame with
  | Ok (_, Some d) =>
      Some (cell_at d "SMA15" 34, cell_at d "Upper" 34, check_strategies d ["S8"; "S3"])
  | _ => None
  end = Some (NaN, NaN, Ok [label_S8]).
Proof.
  split; [|vm_compute; reflexivity].
  split; [apply three_bars_indicator_series|]. split; [reflexivity|]. split.
  - intros name Hname. unfold indicator_fields in Hname.
    repeat (apply elem_of_cons in Hname as [->|Hname]);
      try (eexists; split; reflexivity).
    by apply elem_of_nil in Hname.
  - vm_compute. reflexivity.
Qed.

(** The claim of C7 fails on a request with no strategy and on a request
    whose price bounds are swapped: in both cases the scan returns
    normally, having submitted the symbol and reported progress 1/1. *)
Lemma malformed_requests_are_scanned :
  malformed no_strategy_request ∧
  malformed inverted_range_request ∧
  (∃ run : ScanRun,
     scan_request sqrt_approx ramp_provider no_strategy_request = Ok run ∧
     submitted run = ["2330  台積電"] ∧ status_text run = [(1, 1)]) ∧
  (∃ run : ScanRun,
     scan_request sqrt_approx ramp_provider inverted_range_request = Ok run ∧
     submitted run = ["2330  台積電"] ∧ status_text run = [(1, 1)]).
Proof.
  split; [by left|]. split; [right; simpl; lia|].
  split; (eexists; split; [vm_compute; reflexivity|]; split; reflexivity).
Qed.

Lemma scan_runs_on_every_request_witness :
  malformed no_strategy_request ∧
  ∃ run : ScanRun,
    scan_request sqrt_approx ramp_provider no_strategy_request = Ok run ∧
    submitted run = universe no_strategy_request ∧
    length (status_text run) = length (universe no_strategy_request) ∧
    results run = [].
Proof.
  assert (malformed no_strategy_request) as Hbad by (left; reflexivity).
  split; [exact Hbad|].
  destruct (scan_runs_on_every_request sqrt_approx ramp_provider no_strategy_request)
    as (run & Hrun & Hsub & Hlen & Hres).
  exists run. split; [exact Hrun|]. split; [exact Hsub|]. split; [exact Hlen|].
  exact (Hres Hbad).
Defined.

Lemma price_filter_bounds_inclusive_witness :
  price_in_range (Qc_of_Z 10) (Qc_of_Z 500) (Some (Qc_of_Z 10)) = true ∧
  (∀ c : cell, price_in_range (Qc_of_Z 10) (Qc_of_Z 500) c = true ↔
               ∃ x : Qc, c = Some x ∧ (Qc_of_Z 10 ≤ x)%Qc ∧ (x ≤ Qc_of_Z 500)%Qc) ∧
  ∀ (s : string) (strategies : list string) (data : DataFrame) (close : Series),
    ramp_provider (split_head "  " s +:+ ".TW") = Ok data →
    empty data = false → 35 ≤ len data →
    columns data !! "Close" = Some close → last close = Some (Some (Qc_of_Z 10)) →
    ∃ df' : DataFrame,
      calculate_indicators sqrt_approx data = Ok (df', Some df') ∧
      process_stock sqrt_approx ramp_provider s strategies (Qc_of_Z 10) (Qc_of_Z 500)
      = Ok (match check_strategies df' strategies with
            | Ok (m :: ms) => Some (mkMatch s df' (m :: ms) (Some (Qc_of_Z 10)))
            | _ => None
            end).
Proof.
  apply (price_filter_bounds_inclusive sqrt_approx ramp_provider
           (Qc_of_Z 10) (Qc_of_Z 500) (Qc_of_Z 10)).
  - apply (bool_decide_unpack _). vm_compute. exact I.
  - left. reflexivity.
Defined.

(** ** The pipeline, run *)

(** Closes rising by one each week match S8 and not S3. *)
Example rising_closes_match_S8 :
  match calculate_indicators sqrt_approx (price_frame (ramp 35)) with
  | Ok (_, Some d) => check_strategies d ["S8"; "S3"]
  | _ => Ok []
  end = Ok [label_S8].
Proof. vm_compute. reflexivity. Qed.

(** Three symbols, the provider failing for the second: the two others are
    reported, and progress is written three times. *)
Example scan_with_one_failure :
  match scan sqrt_approx flaky_provider
          ["2330  台積電"; "2317  鴻海"; "2454  聯發科"] ["S8"] (10, 500)%Z with
  | Ok run => Some (symbol <$> results run, status_text run)
  | Raise _ => None
  end = Some (["2330  台積電"; "2454  聯發科"], [(1, 3); (2, 3); (3, 3)]).
Proof. vm_compute. reflexivity. Qed.

(** * Further properties *)

(** Membership in a list that is written out. *)
Ltac in_list :=
  unfold price_fields, indicator_fields;
  repeat first [apply list_elem_of_here | apply list_elem_of_further].

(** ** More on the strategy evaluator *)

Lemma selected_strategies_S8 (s8 s3 : bool) :
  bool_decide ("S8" ∈ selected_strategies s8 s3) = s8.
Proof. by destruct s8, s3. Qed.

Lemma selected_strategies_S3 (s8 s3 : bool) :
  bool_decide ("S3" ∈ selected_strategies s8 s3) = s3.
Proof. by destruct s8, s3. Qed.

(** X1. The evaluator looks at the requested strategies only to see whether
    S8 and whether S3 are among them: other names, the order and
    repetitions change nothing, on any frame. *)
Theorem check_strategies_only_reads_S8_S3 (df : DataFrame) (strategies : list string) :
  check_strategies df strategies
  = check_strategies df
      (selected_strategies (bool_decide ("S8" ∈ strategies))
                           (bool_decide ("S3" ∈ strategies))).
Proof.
  unfold check_strategies.
  by rewrite selected_strategies_S8, selected_strategies_S3.
Qed.

Lemma check_strategies_shape (df : DataFrame) (strategies res : list string) :
  check_strategies df strategies = Ok res →
  (res = [] ∨ res = [label_S8] ∨ res = [label_S3] ∨ res = [label_S8; label_S3]) ∧
  (label_S8 ∈ res → "S8" ∈ strategies) ∧
  (label_S3 ∈ res → "S3" ∈ strategies).
Proof.
  pose proof labels_distinct as Hne.
  unfold check_strategies.
  destruct (iloc_neg 1 df) as [last|]; simpl; [|done].
  destruct (iloc_neg 2 df) as [prev|]; simpl; [|done].
  destruct (iloc_neg 3 df) as [prev2|]; simpl; [|done].
  destruct (bool_decide ("S8" ∈ strategies)) eqn:H8;
    [destruct (cond_S8 last prev prev2) as [[|]|]|]; simpl; try done;
    (destruct (bool_decide ("S3" ∈ strategies)) eqn:H3;
      [destruct (cond_S3 last prev) as [[|]|]|]; simpl; try done);
    intros [= <-];
    try apply bool_decide_eq_true in H8; try apply bool_decide_eq_true in H3;
    (split; [tauto|]); set_unfold; intuition congruence.
Qed.

(** X2. Whenever the evaluator returns, on any frame, it returns one of the
    four lists [[]], [[S8]], [[S3]], [[S8; S3]] of labels (no repeat, S8
    first), and a label is in the list only if its strategy was requested. *)
Theorem check_strategies_labels (df : DataFrame) (strategies res : list string) :
  check_strategies df strategies = Ok res →
  (res = [] ∨ res = [label_S8] ∨ res = [label_S3] ∨ res = [label_S8; label_S3]) ∧
  NoDup res ∧
  (label_S8 ∈ res → "S8" ∈ strategies) ∧
  (label_S3 ∈ res → "S3" ∈ strategies).
Proof.
  intros (Hshape & H8 & H3)%check_strategies_shape.
  split; [exact Hshape|]. split; [|by split].
  pose proof labels_distinct as Hne.
  destruct Hshape as [-> | [-> | [-> | ->]]].
  - constructor.
  - apply NoDup_singleton.
  - apply NoDup_singleton.
  - apply NoDup_cons. split; [|apply NoDup_singleton].
    intros Hin%list_elem_of_singleton. by apply Hne.
Qed.

(** ** Splitting the name of a listing *)

Lemma append_cons (c : Ascii.ascii) (a b : string) :
  String c a +:+ b = String c (a +:+ b).
Proof. reflexivity. Qed.

Lemma prefix_nil (b : string) : String.prefix "" b = true.
Proof. by destruct b. Qed.

Lemma prefix_spec (a b : string) :
  String.prefix a b = true ↔ ∃ r, b = a +:+ r.
Proof.
  revert b. induction a as [|c a IH]; intros b.
  - rewrite prefix_nil. split; [intros _; exists b; reflexivity|reflexivity].
  - destruct b as [|c' b]; simpl;
      [split; [discriminate|intros [r Hr]; discriminate Hr]|].
    destruct (Ascii.ascii_dec c c') as [->|Hne].
    + rewrite IH. split; intros [r Hr]; exists r.
      * rewrite append_cons. by rewrite Hr.
      * rewrite append_cons in Hr. by injection Hr.
    + split; [discriminate|]. intros [r Hr]. rewrite append_cons in Hr.
      injection Hr as ? _. done.
Qed.

Lemma split_head_cons (sep : string) (c : Ascii.ascii) (s : string) :
  split_head sep (String c s)
  = if String.prefix sep (String c s) then "" else String c (split_head sep s).
Proof. reflexivity. Qed.

Lemma contains_cons (sep : string) (c : Ascii.ascii) (s : string) :
  contains sep (String c s) = String.prefix sep (String c s) || contains sep s.
Proof. reflexivity. Qed.

Lemma contains_nil (sep : string) : sep ≠ "" → contains sep "" = false.
Proof. by destruct sep. Qed.

(** The head is an initial part of the string. *)
Lemma split_head_prefix (sep s : string) :
  ∃ r, s = split_head sep s +:+ r.
Proof.
  induction s as [|c s [r IH]]; [by exists ""|].
  rewrite split_head_cons. destruct (String.prefix sep (String c s)).
  - exists (String c s). reflexivity.
  - exists r. rewrite append_cons. f_equal. exact IH.
Qed.

Lemma append_assoc (a b c : string) : (a +:+ b) +:+ c = a +:+ (b +:+ c).
Proof. induction a as [|x a IH]; [done|]. rewrite !append_cons. by rewrite IH. Qed.

Lemma prefix_append (a b r : string) :
  String.prefix a b = true → String.prefix a (b +:+ r) = true.
Proof.
  rewrite !prefix_spec. intros [r' ->]. exists (r' +:+ r). apply append_assoc.
Qed.

Lemma split_head_no_separator (sep s : string) :
  contains sep s = false → split_head sep s = s.
Proof.
  induction s as [|c s IH]; [done|].
  rewrite contains_cons, split_head_cons. intros [Hp Hc]%orb_false_iff.
  rewrite Hp. by rewrite IH.
Qed.

Lemma split_head_separator (sep s : string) :
  contains sep s = true → ∃ rest, s = split_head sep s +:+ sep +:+ rest.
Proof.
  induction s as [|c s IH].
  - destruct sep; [intros _; by exists ""|discriminate].
  - rewrite contains_cons, split_head_cons.
    destruct (String.prefix sep (String c s)) eqn:Hp.
    + intros _. apply prefix_spec in Hp as [r ->]. by exists r.
    + simpl. intros Hc. destruct (IH Hc) as [rest Hrest]. exists rest.
      rewrite append_cons. f_equal. exact Hrest.
Qed.

Lemma split_head_clean (sep s : string) :
  sep ≠ "" → contains sep (split_head sep s) = false.
Proof.
  intros Hsep. induction s as [|c s IH]; [by apply contains_nil|].
  rewrite split_head_cons. destruct (String.prefix sep (String c s)) eqn:Hp.
  - by apply contains_nil.
  - rewrite contains_cons, IH, orb_false_r.
    destruct (String.prefix sep (String c (split_head sep s))) eqn:Hp'; [|done].
    destruct (split_head_prefix sep s) as [r Hr].
    apply (prefix_append _ _ r) in Hp'. rewrite append_cons, <-Hr in Hp'.
    congruence.
Qed.

(** X3. [s.split(sep)[0]] for a non-empty separator: the head holds no
    separator; it is the whole string when the string holds none; and
    otherwise the string is the head, the separator and a rest. *)
Theorem split_head_is_text_before_separator (sep s : string) :
  sep ≠ "" →
  contains sep (split_head sep s) = false ∧
  (contains sep s = false → split_head sep s = s) ∧
  (contains sep s = true → ∃ rest, s = split_head sep s +:+ sep +:+ rest).
Proof.
  intros Hsep. split; [by apply split_head_clean|].
  split; [apply split_head_no_separator|apply split_head_separator].
Qed.


(** ** More on the task of a symbol *)

Section TaskInvariants.
Variable sqrt : Qc → Qc.
Variable download : string → result DataFrame.

(** What a returned record says about the symbol, the price and the
    matches. *)
Lemma match_record_facts (s : string) (strategies : list string)
    (min_p max_p : Qc) (r : MatchRecord) :
  process_stock sqrt download s strategies min_p max_p = Ok (Some r) →
  symbol r = s ∧
  (∃ p : Qc, price r = Some p ∧ (min_p ≤ p)%Qc ∧ (p ≤ max_p)%Qc) ∧
  matches r ≠ [] ∧
  (∀ l, l ∈ matches r →
     (l = label_S8 ∧ "S8" ∈ strategies) ∨ (l = label_S3 ∧ "S3" ∈ strategies)).
Proof.
  rewrite process_stock_total. intros [= Hout]. unfold task_outcome in Hout.
  destruct (process_stock_body _ _ _ _ _ _) as [o|e] eqn:Hbody; [|done]. subst o.
  apply process_stock_body_Some in Hbody
    as (data & df' & close & c & ms & Hdl & H35 & Hclose & Hlast & Hprice
        & Hrun & Hcheck & Hms & ->).
  apply price_in_range_spec in Hprice. destruct Hprice as (p & -> & Hlo & Hhi).
  apply check_strategies_shape in Hcheck as (Hshape & H8 & HS3).
  simpl. split; [done|]. split; [by exists p|]. split; [done|].
  intros l Hl.
  destruct Hshape as [-> | [-> | [-> | ->]]]; set_unfold;
    intuition (subst; auto using list_elem_of_here).
Qed.

(** X4. Every record the task returns carries the string it was given, a
    price that is a number within the range, a non-empty match list of
    labels whose strategies were requested, and a frame of at least 35 bars
    that has the [Close] column and the seven indicator columns. *)
Theorem match_record_invariants (s : string) (strategies : list string)
    (min_p max_p : Qc) (r : MatchRecord) :
  process_stock sqrt download s strategies min_p max_p = Ok (Some r) →
  symbol r = s ∧
  (∃ p : Qc, price r = Some p ∧ (min_p ≤ p)%Qc ∧ (p ≤ max_p)%Qc) ∧
  matches r ≠ [] ∧
  (∀ l, l ∈ matches r →
     (l = label_S8 ∧ "S8" ∈ strategies) ∨ (l = label_S3 ∧ "S3" ∈ strategies)) ∧
  35 ≤ len (df r) ∧
  (∀ name, name ∈ "Close" :: indicator_fields → is_Some (columns (df r) !! name)).
Proof.
  intros Hr.
  destruct (match_record_facts s strategies min_p max_p r Hr) as (Hs & Hp & Hm & Hl).
  repeat (split; [assumption|]).
  rewrite process_stock_total in Hr. injection Hr as Hout. unfold task_outcome in Hout.
  destruct (process_stock_body _ _ _ _ _ _) as [o|e] eqn:Hbody; [|done]. subst o.
  apply process_stock_body_Some in Hbody
    as (data & df' & close & c & ms & _ & H35 & Hclose & _ & _ & Hrun & _ & _ & ->).
  destruct (calculate_indicators_columns sqrt data close H35 Hclose)
    as (df'' & Hrun' & Hidx & Hframe & Hcols).
  rewrite Hrun in Hrun'. injection Hrun' as <-. cbv zeta in Hcols.
  destruct Hcols as (H1 & H2 & H3 & H4 & H5 & H6 & H7).
  simpl. split; [unfold len; by rewrite Hidx|].
  intros name Hname. unfold indicator_fields in Hname.
  assert (columns df' !! "Close" = Some close) as Hc'.
  { rewrite Hframe; [done|]. unfold indicator_fields. set_unfold.
    intuition discriminate. }
  repeat (apply elem_of_cons in Hname as [->|Hname]); eauto.
  by apply elem_of_nil in Hname.
Qed.

(** X5. The task returns [None], and raises nothing, when the provider
    raises, when the frame has fewer than 35 bars, when it has no [Close]
    column, and when the last close is NaN or outside the range. *)
Theorem process_stock_exclusions (s : string) (strategies : list string)
    (min_p max_p : Qc) :
  (∀ e, download (split_head "  " s +:+ ".TW") = Raise e →
        process_stock sqrt download s strategies min_p max_p = Ok None) ∧
  (∀ data, download (split_head "  " s +:+ ".TW") = Ok data → len data < 35 →
           process_stock sqrt download s strategies min_p max_p = Ok None) ∧
  (∀ data, download (split_head "  " s +:+ ".TW") = Ok data →
           columns data !! "Close" = None →
           process_stock sqrt download s strategies min_p max_p = Ok None) ∧
  (∀ data close c,
     download (split_head "  " s +:+ ".TW") = Ok data →
     columns data !! "Close" = Some close → last close = Some c →
     price_in_range min_p max_p c = false →
     process_stock sqrt download s strategies min_p max_p = Ok None).
Proof.
  unfold process_stock, process_stock_body. repeat split.
  - intros e ->. reflexivity.
  - intros data -> Hlen. simpl.
    destruct (Nat.ltb_spec (len data) 35); [|lia].
    by rewrite orb_true_r.
  - intros data -> Hclose. simpl. unfold get_col. rewrite Hclose.
    by destruct (empty data || (len data <? 35)%nat).
  - intros data close c -> Hclose Hlast Hprice. simpl.
    unfold get_col, series_last. rewrite Hclose. simpl. rewrite Hlast. simpl.
    rewrite Hprice. simpl.
    by destruct (empty data || (len data <? 35)%nat).
Qed.
End TaskInvariants.

(** ** More on the scan *)

Lemma Qc_of_nat_pos (n : nat) : 0 < n → (0 < Qc_of_Z (Z.of_nat n))%Qc.
Proof. intros H. rewrite <-Z2Qc_inj_0. apply (proj1 (Z2Qc_inj_lt _ _)). lia. Qed.

(** The fractions [j / n]. *)
Lemma fraction_bounds (j n : nat) :
  0 < j → j ≤ n →
  (0 < Qc_of_Z (Z.of_nat j) / Qc_of_Z (Z.of_nat n))%Qc ∧
  (Qc_of_Z (Z.of_nat j) / Qc_of_Z (Z.of_nat n) ≤ 1)%Qc.
Proof.
  intros Hj Hn. assert (0 < Qc_of_Z (Z.of_nat n))%Qc as Hpos by (apply Qc_of_nat_pos; lia).
  assert (Qc_of_Z (Z.of_nat n) ≠ 0%Qc) as Hne.
  { intros Heq. rewrite Heq in Hpos. by apply (Qclt_not_eq 0 0). }
  unfold Qcdiv. split.
  - apply Qcmult_pos_pos; [by apply Qc_of_nat_pos|by apply Qcinv_pos].
  - rewrite <-(Qcmult_inv_r (Qc_of_Z (Z.of_nat n))) by done.
    apply Qcmult_le_mono_nonneg_r; [by apply Qclt_le_weak, Qcinv_pos|].
    apply (proj1 (Z2Qc_inj_le _ _)). lia.
Qed.

Lemma fraction_rises (j n : nat) :
  0 < n →
  (Qc_of_Z (Z.of_nat j) / Qc_of_Z (Z.of_nat n)
   < Qc_of_Z (Z.of_nat (S j)) / Qc_of_Z (Z.of_nat n))%Qc.
Proof.
  intros Hn. unfold Qcdiv.
  apply Qcmult_lt_mono_pos_r; [by apply Qcinv_pos, Qc_of_nat_pos|].
  apply (proj1 (Z2Qc_inj_lt _ _)). lia.
Qed.

Lemma fraction_whole (n : nat) :
  0 < n → (Qc_of_Z (Z.of_nat n) / Qc_of_Z (Z.of_nat n))%Qc = 1%Qc.
Proof.
  intros Hn. apply Qcmult_inv_r. intros Heq.
  pose proof (Qc_of_nat_pos n Hn) as Hpos. rewrite Heq in Hpos.
  by apply (Qclt_not_eq 0 0).
Qed.

Lemma sublist_omap_inverse {A B : Type} (f : A → option B) (g : B → A) (l : list A) :
  (∀ x y, f x = Some y → g y = x) → g <$> omap f l `sublist_of` l.
Proof.
  intros Hfg. induction l as [|x l IH]; [done|].
  change (omap f (x :: l))
    with (match f x with Some y => y :: omap f l | None => omap f l end).
  destruct (f x) as [y|] eqn:Hx.
  - rewrite fmap_cons, (Hfg x y Hx). by apply sublist_skip.
  - by apply sublist_cons.
Qed.

Section ScanProperties.
Variable sqrt : Qc → Qc.
Variable download : string → result DataFrame.

Lemma task_outcome_symbol (s : string) (strategies : list string)
    (min_p max_p : Qc) (r : MatchRecord) :
  task_outcome sqrt download s strategies min_p max_p = Some r → symbol r = s.
Proof.
  unfold task_outcome.
  destruct (process_stock_body _ _ _ _ _ _) as [o|e] eqn:Hbody; [|done].
  intros ->. apply process_stock_body_Some in Hbody
    as (data & df' & close & c & ms & _ & _ & _ & _ & _ & _ & _ & _ & ->).
  done.
Qed.

(** X6. The symbols of the collected records are a sublist of the targets:
    they come in the order of the targets, each target at most once per
    occurrence, so there are at most as many records as targets. *)
Theorem scan_keeps_target_order (targets : list string)
    (strategies : list string) (range : Z * Z) :
  ∃ run : ScanRun,
    scan sqrt download targets strategies range = Ok run ∧
    symbol <$> results run `sublist_of` targets ∧
    length (results run) ≤ length targets.
Proof.
  eexists. split; [apply scan_eval|]. simpl.
  assert (symbol <$> omap (λ s, task_outcome sqrt download s strategies
                                  (Qc_of_Z range.1) (Qc_of_Z range.2)) targets
          `sublist_of` targets) as Hsub.
  { apply sublist_omap_inverse. intros s r. apply task_outcome_symbol. }
  split; [done|]. apply sublist_length in Hsub. by rewrite length_fmap in Hsub.
Qed.

(** X7. When the provider raises for every target, the scan collects no
    record and still reports progress once per target. *)
Theorem scan_all_fetches_fail (targets : list string)
    (strategies : list string) (range : Z * Z) :
  (∀ s, s ∈ targets → ∃ e, download (split_head "  " s +:+ ".TW") = Raise e) →
  ∃ run : ScanRun,
    scan sqrt download targets strategies range = Ok run ∧
    results run = [] ∧
    status_text run = (λ j, (j, length targets)) <$> seq 1 (length targets).
Proof.
  intros Hfail. eexists. split; [apply scan_eval|]. simpl. split; [|done].
  induction targets as [|s targets IH]; [done|].
  change (omap ?f (s :: targets))
    with (match f s with Some y => y :: omap f targets | None => omap f targets end).
  destruct (Hfail s) as [e He]; [by left|].
  unfold task_outcome at 1, process_stock_body. rewrite He. simpl.
  apply IH. intros s' Hs'. apply Hfail. by right.
Qed.

(** X8. Scanning two lists of targets one after the other collects the
    records of the first list followed by those of the second: no target
    changes what is collected for another. *)
Theorem scan_of_concatenation (targets1 targets2 : list string)
    (strategies : list string) (range : Z * Z) :
  ∃ run1 run2 run : ScanRun,
    scan sqrt download targets1 strategies range = Ok run1 ∧
    scan sqrt download targets2 strategies range = Ok run2 ∧
    scan sqrt download (targets1 ++ targets2) strategies range = Ok run ∧
    results run = results run1 ++ results run2 ∧
    length (status_text run) = length (status_text run1) + length (status_text run2).
Proof.
  eexists _, _, _. rewrite !scan_eval. repeat (split; [reflexivity|]). simpl.
  split; [apply omap_app|].
  rewrite !length_fmap, !length_seq. apply length_app.
Qed.

(** X9. Every value written to the progress bar lies in (0, 1], each value
    is above the one before, and the last one is 1. *)
Theorem progress_bar_rises_to_one (targets : list string)
    (strategies : list string) (range : Z * Z) :
  ∃ run : ScanRun,
    scan sqrt download targets strategies range = Ok run ∧
    (∀ i, i < length targets →
       ∃ v : Qc, progress_bar run !! i = Some v ∧ (0 < v)%Qc ∧ (v ≤ 1)%Qc) ∧
    (∀ i (v w : Qc),
       progress_bar run !! i = Some v → progress_bar run !! S i = Some w → (v < w)%Qc) ∧
    (targets ≠ [] → last (progress_bar run) = Some 1%Qc).
Proof.
  eexists. split; [apply scan_eval|]. simpl.
  set (n := length targets).
  assert (∀ i v, ((λ j, Qc_of_Z (Z.of_nat j) / Qc_of_Z (Z.of_nat n))%Qc <$> seq 1 n) !! i
                 = Some v →
                 i < n ∧ v = (Qc_of_Z (Z.of_nat (S i)) / Qc_of_Z (Z.of_nat n))%Qc) as Hlook.
  { intros i v. rewrite list_lookup_fmap.
    destruct (seq 1 n !! i) as [j|] eqn:Hj; [|done].
    apply lookup_seq in Hj as [-> Hi]. simpl. intros [= <-]. done. }
  split; [|split].
  - intros i Hi. eexists. split.
    + rewrite list_lookup_fmap, lookup_seq_lt by done. reflexivity.
    + apply fraction_bounds; lia.
  - intros i v w [Hi ->]%Hlook [Hi' ->]%Hlook. apply fraction_rises. lia.
  - intros Hne. rewrite fmap_last.
    assert (0 < n) as Hn by (subst n; destruct targets; [done|simpl; lia]).
    replace (seq 1 n) with (seq 1 (n - 1) ++ [n]).
    + rewrite last_snoc. simpl. f_equal. by apply fraction_whole.
    + replace n with (n - 1 + 1) at 3 by lia. rewrite seq_app. simpl.
      do 2 f_equal. lia.
Qed.
End ScanProperties.

(** ** The stock list *)

Global Instance str_le_total : Total str_le.
Proof. intros a b. apply String.leb_total. Qed.

Lemma str_le_neq_lt (a b : string) : str_le a b → a ≠ b → str_lt a b.
Proof.
  unfold str_le, str_lt, String.leb, String.ltb. intros Hle Hne.
  destruct (String.compare a b) eqn:Hcmp; [|done|done].
  by apply String.compare_eq_iff in Hcmp.
Qed.

Lemma Sorted_strict (l : list string) :
  Sorted str_le l → NoDup l → Sorted str_lt l.
Proof.
  induction 1 as [|x l Hl IH Hhd]; intros Hnd; [constructor|].
  apply NoDup_cons in Hnd as [Hx Hnd]. constructor; [by apply IH|].
  destruct Hhd as [|y l' Hxy]; constructor.
  apply str_le_neq_lt; [done|]. intros ->. apply Hx. by left.
Qed.

Lemma sorted_spec (xs : list string) :
  NoDup xs →
  Sorted str_lt (sorted xs) ∧ NoDup (sorted xs) ∧ ∀ x, x ∈ sorted xs ↔ x ∈ xs.
Proof.
  intros Hnd. unfold sorted.
  pose proof (merge_sort_Permutation str_le xs) as Hperm.
  assert (NoDup (merge_sort str_le xs)) as Hnd' by by rewrite Hperm.
  split; [|split; [done|]].
  - apply Sorted_strict; [apply (Sorted_merge_sort str_le)|done].
  - intros x. by rewrite Hperm.
Qed.

Lemma industries_listed (table : list Listing) (i : string) :
  i ∈ (get_taiwan_stock_list table).2 ↔
  ∃ r, r ∈ (get_taiwan_stock_list table).1 ∧ listing_industry r = Some i.
Proof.
  simpl.
  destruct (sorted_spec (remove_dups (omap listing_industry
              (filter (λ r, contains "  " (listing_name r) = true) table))))
    as (_ & _ & Hin); [apply NoDup_remove_dups|].
  by rewrite Hin, elem_of_remove_dups, list_elem_of_omap.
Qed.

(** X10. The stock list holds, in the order of the table, exactly the rows
    whose name holds the separator; hence the name of a listed stock is its
    code (the text [split] returns), the separator and a rest. *)
Theorem listed_stocks_hold_separator (table : list Listing) :
  (get_taiwan_stock_list table).1 `sublist_of` table ∧
  (∀ r, r ∈ (get_taiwan_stock_list table).1 ↔
        r ∈ table ∧ contains "  " (listing_name r) = true) ∧
  (∀ r, r ∈ (get_taiwan_stock_list table).1 →
        ∃ rest, listing_name r
                = split_head "  " (listing_name r) +:+ "  " +:+ rest).
Proof.
  simpl. split; [apply sublist_filter|]. split.
  - intros r. rewrite list_elem_of_filter. tauto.
  - intros r [Hc _]%list_elem_of_filter. by apply split_head_separator.
Qed.

(** X11. The list of industries is strictly ascending (so without repeats)
    and holds exactly the industries of the listed stocks. *)
Theorem industries_sorted_without_repeats (table : list Listing) :
  Sorted str_lt (get_taiwan_stock_list table).2 ∧
  NoDup (get_taiwan_stock_list table).2 ∧
  (∀ i, i ∈ (get_taiwan_stock_list table).2 ↔
        ∃ r, r ∈ (get_taiwan_stock_list table).1 ∧ listing_industry r = Some i).
Proof.
  simpl.
  destruct (sorted_spec (remove_dups (omap listing_industry
              (filter (λ r, contains "  " (listing_name r) = true) table))))
    as (Hsorted & Hnd & Hin); [apply NoDup_remove_dups|].
  split; [done|]. split; [done|].
  intros i. apply industries_listed.
Qed.

Lemma stock_targets_all (raw_df : list Listing) :
  stock_targets_of raw_df all_industries = listing_name <$> raw_df.
Proof. reflexivity. Qed.

Lemma stock_targets_industry (raw_df : list Listing) (selected : string) :
  selected ≠ all_industries →
  stock_targets_of raw_df selected
  = listing_name <$> filter (λ r, listing_industry r = Some selected) raw_df.
Proof.
  intros Hne. unfold stock_targets_of. by rewrite bool_decide_eq_false_2.
Qed.

(** X12. For a choice offered by the industry box, the targets are a sublist
    of the listed names; the first choice gives all of them; an industry
    gives a non-empty list of stocks of that industry; and every target
    holds the separator. *)
Theorem targets_of_an_offered_industry (table : list Listing) (selected : string) :
  selected ∈ industry_options (get_taiwan_stock_list table).2 →
  stock_targets_of (get_taiwan_stock_list table).1 selected
    `sublist_of` listing_name <$> (get_taiwan_stock_list table).1 ∧
  (selected = all_industries →
     stock_targets_of (get_taiwan_stock_list table).1 selected
     = listing_name <$> (get_taiwan_stock_list table).1) ∧
  (selected ≠ all_industries →
     stock_targets_of (get_taiwan_stock_list table).1 selected ≠ [] ∧
     ∀ t, t ∈ stock_targets_of (get_taiwan_stock_list table).1 selected →
          ∃ r, r ∈ (get_taiwan_stock_list table).1 ∧
               listing_name r = t ∧ listing_industry r = Some selected) ∧
  (∀ t, t ∈ stock_targets_of (get_taiwan_stock_list table).1 selected →
        contains "  " t = true).
Proof.
  intros Hsel. set (raw_df := (get_taiwan_stock_list table).1).
  assert (∀ r, r ∈ raw_df → contains "  " (listing_name r) = true) as Hsep.
  { intros r [Hc _]%list_elem_of_filter. done. }
  destruct (decide (selected = all_industries)) as [->|Hne].
  - rewrite stock_targets_all. split; [done|]. split; [done|]. split; [done|].
    intros t (r & -> & Hr)%list_elem_of_fmap. by apply Hsep.
  - rewrite stock_targets_industry by done.
    split; [apply fmap_sublist, sublist_filter|]. split; [done|]. split.
    + intros _. split.
      * apply elem_of_cons in Hsel as [?|Hsel]; [done|].
        apply industries_listed in Hsel as (r & Hr & Hind).
        intros Hnil. apply fmap_nil_inv in Hnil.
        by apply (filter_nil_not_elem_of _ _ r Hnil).
      * intros t (r & -> & [Hind Hr]%list_elem_of_filter)%list_elem_of_fmap.
        by exists r.
    + intros t (r & -> & [_ Hr]%list_elem_of_filter)%list_elem_of_fmap.
      by apply Hsep.
Qed.

(** ** More on the indicator computation *)

Lemma length_series_add (a b : Series) :
  length a = length b → length (series_add a b) = length a.
Proof. intros H. unfold series_add. rewrite length_zip_with. lia. Qed.

Lemma length_scalar_mul (k : Qc) (s : Series) : length (scalar_mul k s) = length s.
Proof. unfold scalar_mul. apply length_fmap. Qed.

Lemma indicator_name_cases (name : string) :
  name ∈ indicator_fields →
  name = "SMA15" ∨ name = "SMA20" ∨ name = "Upper" ∨ name = "Lower" ∨
  name = "MACD" ∨ name = "Signal" ∨ name = "Hist".
Proof.
  unfold indicator_fields. intros H.
  repeat (apply elem_of_cons in H as [->|H]; [tauto|]).
  by apply elem_of_nil in H.
Qed.

Section IndicatorFrames.
Variable sqrt : Qc → Qc.

(** The columns of the returned frame are aligned with the closes. *)
Lemma calculate_indicators_aligned (df : DataFrame) (close : Series) :
  35 ≤ len df → columns df !! "Close" = Some close →
  ∃ df',
    calculate_indicators sqrt df = Ok (df', Some df') ∧
    index df' = index df ∧
    (∀ name, name ∉ indicator_fields → columns df' !! name = columns df !! name) ∧
    (∀ name, name ∈ indicator_fields →
       ∃ s : Series, columns df' !! name = Some s ∧ length s = length close).
Proof.
  intros H35 Hclose.
  destruct (calculate_indicators_columns sqrt df close H35 Hclose)
    as (df' & Hrun & Hidx & Hframe & Hcols).
  cbv zeta in Hcols. destruct Hcols as (H1 & H2 & H3 & H4 & H5 & H6 & H7).
  exists df'. repeat (split; [done|]).
  assert (length (series_sub (ewm_mean 12 close) (ewm_mean 26 close)) = length close)
    as Hmacd by (rewrite length_series_sub; rewrite !length_ewm_mean; done).
  intros name [->|[->|[->|[->|[->|[->| ->]]]]]]%indicator_name_cases;
    eexists; (split; [eassumption|]).
  - apply length_rolling.
  - apply length_rolling.
  - rewrite length_series_add; [apply length_rolling|].
    rewrite length_scalar_mul. unfold rolling_mean, rolling_std.
    by rewrite !length_rolling.
  - rewrite length_series_sub; [apply length_rolling|].
    rewrite length_scalar_mul. unfold rolling_mean, rolling_std.
    by rewrite !length_rolling.
  - done.
  - by rewrite length_ewm_mean.
  - rewrite length_series_sub; [done|]. by rewrite length_ewm_mean.
Qed.

Lemma frame_eq (d1 d2 : DataFrame) :
  index d1 = index d2 → (∀ name, columns d1 !! name = columns d2 !! name) → d1 = d2.
Proof.
  destruct d1 as [i1 c1], d2 as [i2 c2]. simpl. intros -> Hc.
  f_equal. by apply map_eq.
Qed.

(** X13. Computing the indicators of a frame whose indicators were already
    computed leaves it as it is. *)
Theorem calculate_indicators_idempotent (df : DataFrame) :
  35 ≤ len df → is_Some (columns df !! "Close") →
  ∃ df' : DataFrame,
    calculate_indicators sqrt df = Ok (df', Some df') ∧
    calculate_indicators sqrt df' = Ok (df', Some df').
Proof.
  intros H35 [close Hclose].
  destruct (calculate_indicators_columns sqrt df close H35 Hclose)
    as (df' & Hrun & Hidx & Hframe & Hcols).
  assert (columns df' !! "Close" = Some close) as Hclose'.
  { rewrite Hframe; [done|]. intros H%indicator_name_cases.
    by repeat (destruct H as [H|H]; [discriminate|]). }
  assert (35 ≤ len df') as H35' by (unfold len; by rewrite Hidx).
  destruct (calculate_indicators_columns sqrt df' close H35' Hclose')
    as (df'' & Hrun' & Hidx' & Hframe' & Hcols').
  exists df'. split; [done|]. rewrite Hrun'.
  assert (df'' = df') as ->; [|done].
  apply frame_eq; [done|]. intros name.
  destruct (decide (name ∈ indicator_fields)) as [Hin|Hout]; [|by apply Hframe'].
  cbv zeta in Hcols, Hcols'.
  destruct Hcols as (H1 & H2 & H3 & H4 & H5 & H6 & H7).
  destruct Hcols' as (H1' & H2' & H3' & H4' & H5' & H6' & H7').
  apply indicator_name_cases in Hin as [->|[->|[->|[->|[->|[->| ->]]]]]]; congruence.
Qed.

Lemma price_field_not_indicator (name : string) :
  name ∈ price_fields → name ∉ indicator_fields.
Proof.
  unfold price_fields. intros H Hind%indicator_name_cases.
  repeat (apply elem_of_cons in H as [->|H];
          [by repeat (destruct Hind as [Hind|Hind]; [discriminate|])|]).
  by apply elem_of_nil in H.
Qed.

Lemma price_frame_close (df : DataFrame) :
  PriceFrame df → ∃ close : Series, columns df !! "Close" = Some close ∧ length close = len df.
Proof. intros H. apply H. in_list. Qed.

(** From a price frame the computation makes an indicator series. *)
Lemma calculate_indicators_series (df : DataFrame) :
  PriceFrame df → 35 ≤ len df →
  ∃ df' : DataFrame,
    calculate_indicators sqrt df = Ok (df', Some df') ∧
    len df' = len df ∧ IndicatorSeries df'.
Proof.
  intros Hdf H35. destruct (price_frame_close df Hdf) as (close & Hclose & Hlen).
  destruct (calculate_indicators_aligned df close H35 Hclose)
    as (df' & Hrun & Hidx & Hframe & Hcols).
  assert (len df' = len df) as Hlen' by (unfold len; by rewrite Hidx).
  exists df'. split; [done|]. split; [done|].
  intros name [Hname|Hname]%elem_of_app.
  - destruct (Hdf name Hname) as (s & Hs & Hslen). exists s.
    rewrite Hframe by by apply price_field_not_indicator. by rewrite Hlen'.
  - destruct (Hcols name Hname) as (s & Hs & Hslen). exists s.
    split; [done|]. by rewrite Hlen', Hslen.
Qed.

(** X14. On a price frame of at least 35 bars the computation returns an
    indicator series, on which the evaluator returns a match list for every
    request: it raises nothing. *)
Theorem indicators_of_price_frame_evaluate (df : DataFrame) :
  PriceFrame df → 35 ≤ len df →
  ∃ df' : DataFrame,
    calculate_indicators sqrt df = Ok (df', Some df') ∧
    IndicatorSeries df' ∧
    ∀ strategies : list string,
      ∃ res : list string, check_strategies df' strategies = Ok res.
Proof.
  intros Hdf H35.
  destruct (calculate_indicators_series df Hdf H35) as (df' & Hrun & Hlen & Hser).
  exists df'. split; [done|]. split; [done|].
  intros strategies. eexists. apply check_strategies_eval; [done|lia].
Qed.
End IndicatorFrames.

(** ** Missing closes *)

Lemma observations_missing (xs : list cell) :
  NaN ∈ xs → length (observations xs) < length xs.
Proof.
  induction xs as [|[x|] xs IH]; intros Hin.
  - by apply elem_of_nil in Hin.
  - rewrite observations_cons_Some. simpl.
    apply elem_of_cons in Hin as [Hin|Hin]; [done|]. apply IH in Hin. lia.
  - change (None :: xs) with (NaN :: xs). rewrite observations_cons_NaN. simpl.
    pose proof (length_observations_le xs). lia.
Qed.

Lemma window_at_lookup (w i j : nat) (xs : Series) (c : cell) :
  xs !! j = Some c → j ≤ i → i < j + w → c ∈ window_at w i xs.
Proof.
  intros Hj Hji Hiw. unfold window_at. apply list_elem_of_lookup.
  exists (j - (S i - w)). rewrite lookup_take_lt by lia.
  rewrite lookup_drop. by replace (S i - w + (j - (S i - w))) with j by lia.
Qed.

(** A NaN cell blanks the rolling aggregate of every window it falls in. *)
Lemma rolling_missing (w : nat) (agg : list Qc → cell) (xs : Series) (i j : nat) :
  xs !! j = Some NaN → j ≤ i → i < j + w → i < length xs →
  rolling w agg xs !! i = Some NaN.
Proof.
  intros Hj Hji Hiw Hi. unfold rolling.
  rewrite list_lookup_fmap, lookup_seq_lt by done. simpl.
  pose proof (observations_missing _ (window_at_lookup w i j xs NaN Hj Hji Hiw)) as Hlt.
  rewrite length_window_at in Hlt by done.
  destruct (Nat.leb_spec w (length (observations (window_at w i xs)))); [lia|done].
Qed.



Section MissingCloses.
Variable sqrt : Qc → Qc.

(** X16. A NaN close at bar [j] makes SMA15 NaN at bars [j .. j+14] and
    SMA20 and both bands NaN at bars [j .. j+19]. *)
Theorem missing_close_blanks_rolling_columns (df : DataFrame) (close : Series)
    (i j : nat) :
  35 ≤ len df → columns df !! "Close" = Some close →
  close !! j = Some NaN → j ≤ i → i < length close →
  ∃ df' : DataFrame,
    calculate_indicators sqrt df = Ok (df', Some df') ∧
    (i < j + 15 → undefined_at df' "SMA15" i) ∧
    (i < j + 20 →
       undefined_at df' "SMA20" i ∧ undefined_at df' "Upper" i ∧
       undefined_at df' "Lower" i).
Proof.
  intros H35 Hclose Hj Hji Hi.
  destruct (calculate_indicators_columns sqrt df close H35 Hclose)
    as (df' & Hrun & _ & _ & Hcols).
  cbv zeta in Hcols. destruct Hcols as (H1 & H2 & H3 & H4 & _).
  exists df'. split; [done|]. split.
  - intros Hw. eexists. split; [exact H1|]. by apply (rolling_missing _ _ _ i j).
  - intros Hw.
    assert (rolling_mean 20 close !! i = Some NaN) as Hm
      by by apply (rolling_missing _ _ _ i j).
    assert (scalar_mul 2%Qc (rolling_std sqrt 20 close) !! i
            = Some (cell_mul (Some 2%Qc) NaN)) as Hs.
    { apply lookup_scalar_mul. by apply (rolling_missing _ _ _ i j). }
    split; [by eexists|]. split; eexists; (split; [eassumption|]).
    + by apply (band_warmup _ _ _ _ _ Hm Hs).
    + by apply (band_warmup _ _ _ _ _ Hm Hs).
Qed.

End MissingCloses.

(** ** Flat closes *)

Lemma ewm_step_flat (alpha c : Qc) :
  ewm_step alpha (Some c, 1%Qc) (Some c) = (Some c, 1%Qc).
Proof.
  simpl. do 2 f_equal.
  assert (1 * (1 - alpha) + alpha = 1)%Qc as Hone by ring.
  rewrite Hone.
  replace (1 * (1 - alpha) * c + alpha * c)%Qc with (c * 1)%Qc by ring.
  unfold Qcdiv. rewrite <-Qcmult_assoc, Qcmult_inv_r by done. ring.
Qed.

Lemma ewm_from_flat (alpha c : Qc) (n : nat) :
  ewm_from alpha (Some c, 1%Qc) (replicate n (Some c)) = replicate n (Some c).
Proof.
  induction n as [|n IH]; [done|].
  change (replicate (S n) (Some c)) with (Some c :: replicate n (Some c)).
  change (ewm_from alpha (Some c, 1%Qc) (Some c :: replicate n (Some c)))
    with ((ewm_step alpha (Some c, 1%Qc) (Some c)).1
          :: ewm_from alpha (ewm_step alpha (Some c, 1%Qc) (Some c))
               (replicate n (Some c))).
  by rewrite ewm_step_flat, IH.
Qed.

(** The exponential average of a flat series is the series. *)
Lemma ewm_mean_flat (span : Z) (c : Qc) (n : nat) :
  ewm_mean span (replicate n (Some c)) = replicate n (Some c).
Proof.
  destruct n as [|n]; [done|].
  change (replicate (S n) (Some c)) with (Some c :: replicate n (Some c)).
  unfold ewm_mean. by rewrite ewm_from_flat.
Qed.

Lemma series_sub_flat (a b : Qc) (n : nat) :
  series_sub (replicate n (Some a)) (replicate n (Some b))
  = replicate n (Some (a - b)%Qc).
Proof. unfold series_sub. induction n as [|n IH]; [done|]. simpl. by rewrite IH. Qed.

Lemma cell_gt_irrefl (c : cell) : cell_gt c c = false.
Proof.
  destruct c as [x|]; [|done]. simpl. apply bool_decide_eq_false.
  apply Qcle_not_lt, Qcle_refl.
Qed.

(** Equal MACD cells at the last two bars: the S8 condition is false. *)
Lemma cond_S8_level (last prev prev2 : Row) (c : cell) :
  row_get last "MACD" = Ok c → row_get prev "MACD" = Ok c →
  cond_S8 last prev prev2 = Ok false.
Proof.
  intros Hl Hp. unfold cond_S8, and_then. rewrite Hl, Hp.
  destruct c as [x|]; simpl; [|done].
  rewrite bool_decide_eq_false_2; [done|]. apply Qcle_not_lt, Qcle_refl.
Qed.

Section FlatCloses.
Variable sqrt : Qc → Qc.

(** X18. When every close is the same number, MACD, Signal and Hist are 0 at
    every bar, and S8 is never matched. *)
Theorem flat_closes_have_zero_momentum (df : DataFrame) (c : Qc)
    (strategies res : list string) :
  35 ≤ len df → columns df !! "Close" = Some (replicate (len df) (Some c)) →
  ∃ df' : DataFrame,
    calculate_indicators sqrt df = Ok (df', Some df') ∧
    columns df' !! "MACD" = Some (replicate (len df) (Some 0%Qc)) ∧
    columns df' !! "Signal" = Some (replicate (len df) (Some 0%Qc)) ∧
    columns df' !! "Hist" = Some (replicate (len df) (Some 0%Qc)) ∧
    (check_strategies df' strategies = Ok res → label_S8 ∉ res).
Proof.
  intros H35 Hclose.
  destruct (calculate_indicators_columns sqrt df _ H35 Hclose)
    as (df' & Hrun & Hidx & _ & Hcols).
  cbv zeta in Hcols. destruct Hcols as (_ & _ & _ & _ & H5 & H6 & H7).
  assert (series_sub (replicate (len df) (Some c)) (replicate (len df) (Some c))
          = replicate (len df) (Some 0%Qc)) as Hzero.
  { rewrite series_sub_flat. by replace (c - c)%Qc with 0%Qc by ring. }
  assert (series_sub (replicate (len df) (Some 0%Qc)) (replicate (len df) (Some 0%Qc))
          = replicate (len df) (Some 0%Qc)) as Hzero'.
  { rewrite series_sub_flat. by replace (0 - 0)%Qc with 0%Qc by ring. }
  rewrite !ewm_mean_flat, !Hzero in H5, H6, H7.
  rewrite ewm_mean_flat in H6, H7. rewrite Hzero' in H7.
  exists df'. repeat (split; [done|]).
  assert (len df' = len df) as Hlen by (unfold len; by rewrite Hidx).
  unfold check_strategies.
  destruct (iloc_neg 1 df') as [last|] eqn:H1; simpl; [|done].
  destruct (iloc_neg 2 df') as [prev|] eqn:H2; simpl; [|done].
  destruct (iloc_neg 3 df') as [prev2|] eqn:H3; simpl; [|done].
  assert (∀ k row, 1 ≤ k → iloc_neg k df' = Ok row →
                   row_get row "MACD" = Ok (Some 0%Qc)) as Hrow.
  { intros k row Hk. unfold iloc_neg.
    destruct (Nat.ltb_spec (len df') k); [done|]. intros [= <-].
    unfold row_get. rewrite lookup_omap, H5. simpl.
    rewrite lookup_replicate_2 by lia. done. }
  rewrite (cond_S8_level last prev prev2 (Some 0%Qc))
    by (eapply Hrow; [|eassumption]; lia).
  pose proof labels_distinct as Hne.
  destruct (bool_decide ("S3" ∈ strategies));
    [destruct (cond_S3 last prev) as [[|]|]|];
    destruct (bool_decide ("S8" ∈ strategies)); simpl; try done;
    intros [= <-]; set_unfold; intuition congruence.
Qed.
End FlatCloses.

(** ** The bands *)

Lemma sqrt_approx_nonneg (q : Qc) : (0 ≤ sqrt_approx q)%Qc.
Proof.
  unfold sqrt_approx, Qcle. cbn [this Q2Qc]. rewrite !Qred_correct.
  unfold Qle. cbn [Qnum Qden].
  match goal with |- context [Z.sqrt ?a] => pose proof (Z.sqrt_nonneg a) end.
  lia.
Qed.

Section Bands.
Variable sqrt : Qc → Qc.
Hypothesis sqrt_nonneg : ∀ q : Qc, (0 ≤ sqrt q)%Qc.

Lemma rolling_std_nonneg (w : nat) (xs : Series) (i : nat) :
  Forall is_Some xs → i < length xs → 2 ≤ w → w ≤ S i →
  ∃ y : Qc, rolling_std sqrt w xs !! i = Some (Some y) ∧ (0 ≤ y)%Qc.
Proof.
  intros Hxs Hi Hw2 Hw.
  destruct (rolling_full w (agg_std sqrt) xs i Hxs Hi Hw) as (obs & Hlen & Hobs).
  unfold rolling_std. rewrite Hobs. unfold agg_std.
  destruct (Nat.leb_spec (length obs) 1); [lia|]. eauto.
Qed.

(** X19. With a square root that is never negative, on a price series
    with moderate closes the bands enclose the 20-bar average from bar 19
    on: Lower, SMA20 and Upper hold numbers and Lower <= SMA20 <= Upper.
    The order survives float64 rounding, which is monotone: adding a
    number that is not negative never rounds below the first summand. *)
Theorem bands_enclose_the_average (df : DataFrame) :
  ModeratePriceSeries df → 35 ≤ len df →
  ∃ df' : DataFrame,
    calculate_indicators sqrt df = Ok (df', Some df') ∧
    ∀ i, 19 ≤ i → i < len df →
      ∃ l m u : Qc,
        cell_at df' "Lower" i = Some l ∧
        cell_at df' "SMA20" i = Some m ∧
        cell_at df' "Upper" i = Some u ∧
        (l ≤ m)%Qc ∧ (m ≤ u)%Qc.
Proof.
  intros (close & Hclose & Hlen & Hmod) H35.
  assert (Forall is_Some close) as Hdef
    by (by apply (within_defined (- moderate) moderate)).
  destruct (calculate_indicators_columns sqrt df close H35 Hclose)
    as (df' & Hrun & _ & _ & Hcols).
  cbv zeta in Hcols. destruct Hcols as (_ & H2 & H3 & H4 & _).
  exists df'. split; [done|]. intros i H19 Hi.
  destruct (rolling_mean_defined 20 close i Hdef) as [m Hm]; [lia..|].
  destruct (rolling_std_nonneg 20 close i Hdef) as (y & Hy & Hy0); [lia..|].
  pose proof (lookup_scalar_mul 2%Qc _ _ _ Hy) as Hy2. simpl in Hy2.
  assert (series_add (rolling_mean 20 close)
            (scalar_mul 2%Qc (rolling_std sqrt 20 close)) !! i
          = Some (Some (m + 2 * y)%Qc)) as Hu
    by exact (band_defined Qcplus _ _ i m (2 * y)%Qc Hm Hy2).
  assert (series_sub (rolling_mean 20 close)
            (scalar_mul 2%Qc (rolling_std sqrt 20 close)) !! i
          = Some (Some (m - 2 * y)%Qc)) as Hl
    by exact (band_defined Qcminus _ _ i m (2 * y)%Qc Hm Hy2).
  exists (m - 2 * y)%Qc, m, (m + 2 * y)%Qc. unfold cell_at.
  rewrite H2, H3, H4, Hu, Hl, Hm. simpl. repeat (split; [done|]).
  assert (0 ≤ 2 * y)%Qc as H2y by (apply Qcmult_nonneg_nonneg; [done|done]).
  split.
  - apply (Qcplus_le_mono_r _ _ (2 * y)%Qc).
    replace (m - 2 * y + 2 * y)%Qc with (m + 0)%Qc by ring.
    by apply Qcplus_le_mono_l.
  - replace m with (m + 0)%Qc at 1 by ring. by apply Qcplus_le_mono_l.
Qed.
End Bands.

(** ** The table shown for a match *)

Lemma select_columns_present (names : list string) (df : DataFrame) :
  (∀ name, name ∈ names → is_Some (columns df !! name)) →
  select_columns names df
  = Ok (mkDF (index df) (filter (λ kv, kv.1 ∈ names) (columns df))).
Proof.
  intros Hall. unfold select_columns.
  destruct (filter (λ c, columns df !! c = None) names) as [|c l] eqn:Hf; [done|].
  assert (c ∈ filter (λ c, columns df !! c = None) names) as Hc
    by (rewrite Hf; by left).
  apply list_elem_of_filter in Hc as [Hnone Hin].
  destruct (Hall c Hin) as [x Hx]. congruence.
Qed.

Section ShownTable.
Variable sqrt : Qc → Qc.
Variable download : string → result DataFrame.

(** X20. For a record of the task on a price frame, the table shown for the
    match is built without a KeyError; it has exactly the columns Close,
    MACD, Signal and Hist, and five rows. *)
Theorem shown_table_has_five_rows (s : string) (strategies : list string)
    (min_p max_p : Qc) (r : MatchRecord) :
  (∀ data, download (split_head "  " s +:+ ".TW") = Ok data → PriceFrame data) →
  process_stock sqrt download s strategies min_p max_p = Ok (Some r) →
  ∃ t : DataFrame,
    shown_table r = Ok t ∧
    len t = 5 ∧
    (∀ name, is_Some (columns t !! name) ↔ name ∈ ["Close"; "MACD"; "Signal"; "Hist"]) ∧
    (∀ name (col : Series), columns t !! name = Some col → length col = 5).
Proof.
  intros Hwf. rewrite process_stock_total. intros [= Hout]. unfold task_outcome in Hout.
  destruct (process_stock_body _ _ _ _ _ _) as [o|e] eqn:Hbody; [|done]. subst o.
  apply process_stock_body_Some in Hbody
    as (data & df' & close & c & ms & Hdl & H35 & Hclose & _ & _ & Hrun & _ & _ & ->).
  destruct (price_frame_close data (Hwf data Hdl)) as (close' & Hclose' & Hlen).
  rewrite Hclose in Hclose'. injection Hclose' as <-.
  destruct (calculate_indicators_aligned sqrt data close H35 Hclose)
    as (df'' & Hrun' & Hidx & Hframe & Hcols).
  rewrite Hrun in Hrun'. injection Hrun' as <-.
  assert (len df' = len data) as Hlen' by (unfold len; by rewrite Hidx).
  assert (∀ name, name ∈ ["Close"; "MACD"; "Signal"; "Hist"] →
            ∃ col : Series, columns df' !! name = Some col ∧ length col = len df')
    as Hfour.
  { intros name Hname. rewrite Hlen', <-Hlen.
    repeat (apply elem_of_cons in Hname as [->|Hname]).
    - exists close. split; [|done]. rewrite Hframe; [done|].
      intros Hind%indicator_name_cases.
      by repeat (destruct Hind as [Hind|Hind]; [discriminate|]).
    - apply Hcols. in_list.
    - apply Hcols. in_list.
    - apply Hcols. in_list.
    - by apply elem_of_nil in Hname. }
  unfold shown_table. simpl.
  rewrite select_columns_present.
  2:{ intros name (col & Hcol & _)%Hfour. simpl. rewrite lookup_fmap, Hcol. by eexists. }
  eexists. split; [reflexivity|]. split; [|split].
  - unfold len. simpl. rewrite length_drop. unfold len in *. lia.
  - intros name. simpl. split.
    + intros [col Hcol]. by apply map_lookup_filter_Some in Hcol as [_ Hin].
    + intros Hin. destruct (Hfour name Hin) as (col & Hcol & _).
      exists (drop (len df' - 5) col). apply map_lookup_filter_Some. split; [|done].
      by rewrite lookup_fmap, Hcol.
  - intros name col [Hcol Hin]%map_lookup_filter_Some. simpl in *.
    destruct (Hfour name Hin) as (col' & Hcol' & Hcollen).
    rewrite lookup_fmap, Hcol' in Hcol. injection Hcol as <-.
    rewrite length_drop. lia.
Qed.
End ShownTable.

(** ** The evaluator and the last three bars *)

Lemma iloc_neg_tail_rows (n k : nat) (df : DataFrame) :
  1 ≤ k → k ≤ n → n ≤ len df → iloc_neg k (tail_rows n df) = iloc_neg k df.
Proof.
  intros Hk1 Hkn Hn.
  assert (len (tail_rows n df) = n) as Hlen.
  { unfold tail_rows, len in *. simpl. rewrite length_drop. lia. }
  rewrite !iloc_neg_row by lia. f_equal. apply map_eq. intros name.
  rewrite !lookup_omap, Hlen. unfold tail_rows. simpl. rewrite lookup_fmap.
  destruct (columns df !! name) as [s|]; simpl; [|done].
  rewrite lookup_drop. f_equal. lia.
Qed.

(** X21. On a frame of at least three bars the evaluator returns what it
    returns on the last three bars alone. *)
Theorem check_strategies_reads_last_three_bars (df : DataFrame)
    (strategies : list string) :
  3 ≤ len df →
  check_strategies (tail_rows 3 df) strategies = check_strategies df strategies.
Proof.
  intros Hlen. unfold check_strategies.
  by rewrite !iloc_neg_tail_rows by lia.
Qed.

(** ** A breakout closes above the average *)

Section Breakout.
Variable sqrt : Qc → Qc.
Hypothesis sqrt_nonneg : ∀ q : Qc, (0 ≤ sqrt q)%Qc.

(** At a bar whose window of 20 closes is full of numbers the upper band
    is a number at or above the average. *)
Lemma upper_band_above_average (close : Series) (i : nat) :
  Forall is_Some close → 19 ≤ i → i < length close →
  ∃ m u : Qc,
    rolling_mean 20 close !! i = Some (Some m) ∧
    series_add (rolling_mean 20 close)
      (scalar_mul 2%Qc (rolling_std sqrt 20 close)) !! i = Some (Some u) ∧
    (m ≤ u)%Qc.
Proof.
  intros Hdef H19 Hi.
  destruct (rolling_mean_defined 20 close i Hdef) as [m Hm]; [lia..|].
  destruct (rolling_std_nonneg sqrt sqrt_nonneg 20 close i Hdef) as (y & Hy & Hy0);
    [lia..|].
  pose proof (lookup_scalar_mul 2%Qc _ _ _ Hy) as Hy2. simpl in Hy2.
  exists m, (m + 2 * y)%Qc. split; [done|]. split.
  - exact (band_defined Qcplus _ _ i m (2 * y)%Qc Hm Hy2).
  - replace m with (m + 0)%Qc at 1 by ring. apply Qcplus_le_mono_l.
    by apply Qcmult_nonneg_nonneg.
Qed.

(** X22. With a square root that is never negative, on a price frame whose
    closes are numbers, an S3 match means that the last close is above its
    20-bar average. *)
Theorem breakout_closes_above_average (df : DataFrame)
    (strategies res : list string) :
  PriceFrame df → PriceSeries df → 35 ≤ len df →
  ∃ df' : DataFrame,
    calculate_indicators sqrt df = Ok (df', Some df') ∧
    (check_strategies df' strategies = Ok res → label_S3 ∈ res →
     num_gt (back df' "Close" 1) (back df' "SMA20" 1)).
Proof.
  intros Hframe (close & Hclose & Hlen & Hdef) H35.
  destruct (calculate_indicators_series sqrt df Hframe H35)
    as (df' & Hrun & Hlen' & Hser).
  destruct (calculate_indicators_columns sqrt df close H35 Hclose)
    as (df'' & Hrun' & _ & _ & Hcols).
  rewrite Hrun in Hrun'. injection Hrun' as <-.
  cbv zeta in Hcols. destruct Hcols as (_ & H2 & H3 & _).
  exists df'. split; [done|].
  rewrite check_strategies_eval by (done || lia). intros [= <-].
  rewrite matched_S3_iff, andb_true_iff, S3_rule_spec.
  intros (_ & (c & u' & Hc & Hu' & Hcu) & _).
  destruct (upper_band_above_average close (len df' - 1) Hdef)
    as (m & u & Hm & Hu & Hmu); [lia..|].
  unfold back, cell_at in Hu'. rewrite H3, Hu in Hu'. simpl in Hu'.
  injection Hu' as <-.
  exists c, m. split; [done|]. split.
  - unfold back, cell_at. by rewrite H2, Hm.
  - by apply Qcle_lt_trans with u.
Qed.
End Breakout.

(** ** What the scan reports *)

Section ScanReports.
Variable sqrt : Qc → Qc.
Variable download : string → result DataFrame.

(** X23. Every record of a scan belongs to one of the targets, has a price
    within the range of the request and a non-empty list of labels whose
    strategies were requested. *)
Theorem scan_reports_only_qualifying_stocks (targets : list string)
    (strategies : list string) (range : Z * Z) :
  ∃ run : ScanRun,
    scan sqrt download targets strategies range = Ok run ∧
    ∀ r : MatchRecord, r ∈ results run →
      symbol r ∈ targets ∧
      (∃ p : Qc, price r = Some p ∧
                 (Qc_of_Z range.1 ≤ p)%Qc ∧ (p ≤ Qc_of_Z range.2)%Qc) ∧
      matches r ≠ [] ∧
      (∀ l, l ∈ matches r →
         (l = label_S8 ∧ "S8" ∈ strategies) ∨ (l = label_S3 ∧ "S3" ∈ strategies)).
Proof.
  eexists. split; [apply scan_eval|]. simpl.
  intros r (s & Hs & Hout)%list_elem_of_omap.
  pose proof (task_outcome_symbol _ _ _ _ _ _ _ Hout) as Hsym.
  destruct (match_record_facts sqrt download s strategies
              (Qc_of_Z range.1) (Qc_of_Z range.2) r) as (_ & Hp & Hm & Hl).
  { by rewrite process_stock_total, Hout. }
  rewrite Hsym. done.
Qed.
End ScanReports.


(** * The further properties on sample data *)

Lemma price_frame_wf (closes : list Qc) : PriceFrame (price_frame closes).
Proof.
  intros name Hname. exists (Some <$> closes). split.
  - unfold price_fields in Hname.
    repeat (apply elem_of_cons in Hname as [->|Hname]; [reflexivity|]).
    by apply elem_of_nil in Hname.
  - unfold len. simpl. by rewrite !length_fmap, length_seq.
Qed.

Lemma ramp_provider_wf (symbol : string) (data : DataFrame) :
  ramp_provider symbol = Ok data → PriceFrame data.
Proof. intros [= <-]. apply price_frame_wf. Qed.

Lemma check_strategies_labels_witness :
  ([label_S8; label_S3] = [] ∨ [label_S8; label_S3] = [label_S8] ∨
   [label_S8; label_S3] = [label_S3] ∨ [label_S8; label_S3] = [label_S8; label_S3]) ∧
  NoDup [label_S8; label_S3] ∧
  (label_S8 ∈ [label_S8; label_S3] → "S8" ∈ ["S3"; "S8"]) ∧
  (label_S3 ∈ [label_S8; label_S3] → "S3" ∈ ["S3"; "S8"]).
Proof.
  apply (check_strategies_labels signal_bars ["S3"; "S8"] [label_S8; label_S3]).
  vm_compute. reflexivity.
Defined.

Lemma split_head_is_text_before_separator_witness :
  contains "  " (split_head "  " "2330  台積電") = false ∧
  (contains "  " "2330  台積電" = false → split_head "  " "2330  台積電" = "2330  台積電") ∧
  (contains "  " "2330  台積電" = true →
     ∃ rest, "2330  台積電" = split_head "  " "2330  台積電" +:+ "  " +:+ rest).
Proof. apply (split_head_is_text_before_separator "  " "2330  台積電"). discriminate. Defined.

Lemma ramp_is_reported :
  ∃ r : MatchRecord,
    process_stock sqrt_approx ramp_provider "2330  台積電" ["S8"]
      (Qc_of_Z 10) (Qc_of_Z 500) = Ok (Some r).
Proof.
  destruct (process_stock_in_range sqrt_approx ramp_provider "2330  台積電" ["S8"]
              (Qc_of_Z 10) (Qc_of_Z 500) (price_frame (ramp 35))
              (Some <$> ramp 35) (Some (Qc_of_Z 134)))
    as (df' & Hrun & Hps); [reflexivity|vm_compute; reflexivity|vm_compute; lia|reflexivity
                            |vm_compute; reflexivity|vm_compute; reflexivity|].
  rewrite Hps.
  destruct (calculate_indicators_series sqrt_approx (price_frame (ramp 35)))
    as (df'' & Hrun' & Hlen & Hser); [apply price_frame_wf|vm_compute; lia|].
  rewrite Hrun in Hrun'. injection Hrun' as <-.
  assert (3 ≤ len df') as H3 by (rewrite Hlen; vm_compute; lia).
  pose proof rising_closes_match_S8 as Hex. rewrite Hrun in Hex.
  clear Hrun Hps Hlen.
  rewrite check_strategies_eval in Hex; [|exact Hser|exact H3].
  rewrite check_strategies_eval; [|exact Hser|exact H3].
  destruct (S8_rule df'), (S3_rule df'); simpl in Hex; try discriminate Hex;
    eexists; reflexivity.
Qed.

Lemma match_record_invariants_witness :
  ∃ r : MatchRecord,
    process_stock sqrt_approx ramp_provider "2330  台積電" ["S8"]
      (Qc_of_Z 10) (Qc_of_Z 500) = Ok (Some r) ∧
    symbol r = "2330  台積電" ∧
    (∃ p : Qc, price r = Some p ∧ (Qc_of_Z 10 ≤ p)%Qc ∧ (p ≤ Qc_of_Z 500)%Qc) ∧
    matches r ≠ [] ∧
    (∀ l, l ∈ matches r →
       (l = label_S8 ∧ "S8" ∈ ["S8"]) ∨ (l = label_S3 ∧ "S3" ∈ ["S8"])) ∧
    35 ≤ len (df r) ∧
    (∀ name, name ∈ "Close" :: indicator_fields → is_Some (columns (df r) !! name)).
Proof.
  destruct ramp_is_reported as [r Hr]. exists r. split; [exact Hr|].
  exact (match_record_invariants sqrt_approx ramp_provider "2330  台積電" ["S8"]
           (Qc_of_Z 10) (Qc_of_Z 500) r Hr).
Defined.

Lemma scan_all_fetches_fail_witness :
  ∃ run : ScanRun,
    scan sqrt_approx failing_provider ["2330  台積電"; "2317  鴻海"] ["S8"] (10, 500)%Z
    = Ok run ∧
    results run = [] ∧
    status_text run = (λ j, (j, 2)) <$> seq 1 2.
Proof.
  apply (scan_all_fetches_fail sqrt_approx failing_provider
           ["2330  台積電"; "2317  鴻海"] ["S8"] (10, 500)%Z).
  intros s _. eexists. reflexivity.
Defined.

Lemma semiconductors_offered :
  "半導體業" ∈ industry_options (get_taiwan_stock_list sample_table).2.
Proof. apply (bool_decide_unpack _). vm_compute. exact I. Qed.

Lemma targets_of_an_offered_industry_witness :
  stock_targets_of (get_taiwan_stock_list sample_table).1 "半導體業"
    `sublist_of` listing_name <$> (get_taiwan_stock_list sample_table).1 ∧
  ("半導體業" = all_industries →
     stock_targets_of (get_taiwan_stock_list sample_table).1 "半導體業"
     = listing_name <$> (get_taiwan_stock_list sample_table).1) ∧
  ("半導體業" ≠ all_industries →
     stock_targets_of (get_taiwan_stock_list sample_table).1 "半導體業" ≠ [] ∧
     ∀ t, t ∈ stock_targets_of (get_taiwan_stock_list sample_table).1 "半導體業" →
          ∃ r, r ∈ (get_taiwan_stock_list sample_table).1 ∧
               listing_name r = t ∧ listing_industry r = Some "半導體業") ∧
  (∀ t, t ∈ stock_targets_of (get_taiwan_stock_list sample_table).1 "半導體業" →
        contains "  " t = true).
Proof.
  apply (targets_of_an_offered_industry sample_table "半導體業").
  apply semiconductors_offered.
Defined.

Lemma calculate_indicators_idempotent_witness :
  ∃ df' : DataFrame,
    calculate_indicators sqrt_approx (price_frame (ramp 35)) = Ok (df', Some df') ∧
    calculate_indicators sqrt_approx df' = Ok (df', Some df').
Proof.
  apply (calculate_indicators_idempotent sqrt_approx (price_frame (ramp 35))).
  - vm_compute; lia.
  - eexists. reflexivity.
Defined.

Lemma indicators_of_price_frame_evaluate_witness :
  ∃ df' : DataFrame,
    calculate_indicators sqrt_approx (price_frame (ramp 35)) = Ok (df', Some df') ∧
    IndicatorSeries df' ∧
    ∀ strategies : list string,
      ∃ res : list string, check_strategies df' strategies = Ok res.
Proof.
  apply (indicators_of_price_frame_evaluate sqrt_approx (price_frame (ramp 35))).
  - apply price_frame_wf.
  - vm_compute; lia.
Defined.

Lemma missing_close_blanks_rolling_columns_witness :
  ∃ df' : DataFrame,
    calculate_indicators sqrt_approx gap_frame = Ok (df', Some df') ∧
    (34 < 32 + 15 → undefined_at df' "SMA15" 34) ∧
    (34 < 32 + 20 →
       undefined_at df' "SMA20" 34 ∧ undefined_at df' "Upper" 34 ∧
       undefined_at df' "Lower" 34).
Proof.
  apply (missing_close_blanks_rolling_columns sqrt_approx gap_frame
           (<[32 := NaN]> (Some <$> ramp 35)) 34 32).
  - vm_compute; lia.
  - reflexivity.
  - vm_compute; reflexivity.
  - lia.
  - vm_compute; lia.
Defined.


Lemma flat_closes_have_zero_momentum_witness :
  ∃ df' : DataFrame,
    calculate_indicators sqrt_approx flat_frame = Ok (df', Some df') ∧
    columns df' !! "MACD" = Some (replicate (len flat_frame) (Some 0%Qc)) ∧
    columns df' !! "Signal" = Some (replicate (len flat_frame) (Some 0%Qc)) ∧
    columns df' !! "Hist" = Some (replicate (len flat_frame) (Some 0%Qc)) ∧
    (check_strategies df' ["S8"] = Ok [] → label_S8 ∉ []).
Proof.
  apply (flat_closes_have_zero_momentum sqrt_approx flat_frame (Qc_of_Z 50) ["S8"] []).
  - vm_compute; lia.
  - reflexivity.
Defined.

Lemma bands_enclose_the_average_witness :
  ∃ df' : DataFrame,
    calculate_indicators sqrt_approx (price_frame (ramp 35)) = Ok (df', Some df') ∧
    ∀ i, 19 ≤ i → i < len (price_frame (ramp 35)) →
      ∃ l m u : Qc,
        cell_at df' "Lower" i = Some l ∧
        cell_at df' "SMA20" i = Some m ∧
        cell_at df' "Upper" i = Some u ∧
        (l ≤ m)%Qc ∧ (m ≤ u)%Qc.
Proof.
  apply (bands_enclose_the_average sqrt_approx sqrt_approx_nonneg (price_frame (ramp 35))).
  - apply ramp_moderate. lia.
  - vm_compute; lia.
Defined.

Lemma shown_table_has_five_rows_witness :
  ∃ r : MatchRecord,
    process_stock sqrt_approx ramp_provider "2330  台積電" ["S8"]
      (Qc_of_Z 10) (Qc_of_Z 500) = Ok (Some r) ∧
    ∃ t : DataFrame,
      shown_table r = Ok t ∧
      len t = 5 ∧
      (∀ name, is_Some (columns t !! name) ↔ name ∈ ["Close"; "MACD"; "Signal"; "Hist"]) ∧
      (∀ name (col : Series), columns t !! name = Some col → length col = 5).
Proof.
  destruct ramp_is_reported as [r Hr]. exists r. split; [exact Hr|].
  apply (shown_table_has_five_rows sqrt_approx ramp_provider "2330  台積電" ["S8"]
           (Qc_of_Z 10) (Qc_of_Z 500) r).
  - apply ramp_provider_wf.
  - exact Hr.
Defined.

Lemma check_strategies_reads_last_three_bars_witness :
  check_strategies (tail_rows 3 gap_frame) ["S8"; "S3"]
  = check_strategies gap_frame ["S8"; "S3"].
Proof.
  apply (check_strategies_reads_last_three_bars gap_frame ["S8"; "S3"]).
  vm_compute; lia.
Defined.

(** On the breakout frame the evaluator reports the band breakout. *)
Example breakout_frame_matches_S3 :
  match calculate_indicators sqrt_approx breakout_frame with
  | Ok (_, Some df') => check_strategies df' ["S3"]
  | _ => Ok []
  end = Ok [label_S3].
Proof. vm_compute. reflexivity. Qed.

Lemma breakout_closes_above_average_witness :
  ∃ df' : DataFrame,
    calculate_indicators sqrt_approx breakout_frame = Ok (df', Some df') ∧
    check_strategies df' ["S3"] = Ok [label_S3] ∧
    label_S3 ∈ [label_S3] ∧
    num_gt (back df' "Close" 1) (back df' "SMA20" 1).
Proof.
  destruct (breakout_closes_above_average sqrt_approx sqrt_approx_nonneg
              breakout_frame ["S3"] [label_S3]) as (df' & Hrun & Habove).
  - apply price_frame_wf.
  - apply price_frame_series.
  - vm_compute; lia.
  - pose proof breakout_frame_matches_S3 as Hex. rewrite Hrun in Hex.
    exists df'. split; [exact Hrun|]. split; [exact Hex|].
    split; [apply list_elem_of_here|].
    apply Habove; [exact Hex|apply list_elem_of_here].
Defined.

(** The stock list of the sample table and the targets of one industry. *)
Example sample_stock_list :
  (listing_name <$> (get_taiwan_stock_list sample_table).1,
   (get_taiwan_stock_list sample_table).2,
   stock_targets_of (get_taiwan_stock_list sample_table).1 "半導體業")
  = (["2330  台積電"; "2317  鴻海"; "2454  聯發科"; "0050  元大台灣50"],
     ["其他電子業"; "半導體業"],
     ["2330  台積電"; "2454  聯發科"]).
Proof. vm_compute. reflexivity. Qed.
